(** * Season detail page: task timeline, actionability, edit gating

    A shallow embedding of the decision logic of
    [src/pages/SeasonDetailPage.js]: the reference-timeline resolver
    [calculateReferenceTimeline], the predicate [isTaskActionable], the
    edit gates [isCellEditable] and [handleEditClick], and the edit
    reducer [handleProcessRowUpdate].

    Conventions of the embedding.
    - A date (a JS [Date], a [moment], or the ISO string of one) is the
      integer number of milliseconds since the epoch, a [Z].  Local time
      is a fixed offset [utcOffset] from UTC (no daylight-saving jumps),
      so adding [n] days adds [n * MS_PER_DAY] milliseconds.
    - A JS [Map] keyed by strings is a [gmap string _].
    - An optional field ([undefined] / [null]) is an [option].
    - React state setters and the persistence call are recorded as an
      explicit list of effects. *)

From Stdlib Require Import ZArith String Ascii List Sorting.Sorted Permutation Lia.
From stdpp Require Import base gmap strings list fin_maps fin_sets relations.
From Stdlib Require OrderedTypeEx DecimalString.

Local Open Scope string_scope.
Local Open Scope Z_scope.

(** ** Strings *)

Module JsString.

(** [String.prototype.toLowerCase] on the ASCII range. *)
Definition lower_ascii (c : ascii) : ascii :=
  let n := nat_of_ascii c in
  if ((65 <=? n)%nat && (n <=? 90)%nat)%bool then ascii_of_nat (n + 32) else c.

Fixpoint toLowerCase (s : string) : string :=
  match s with
  | EmptyString => EmptyString
  | String c s' => String (lower_ascii c) (toLowerCase s')
  end.

(** [a.localeCompare(b)]: order codes are words over the upper-case
    letters, on which the collation is the lexicographic order of the
    character codes.  The sign is what the comparator uses. *)
Definition localeCompare (a b : string) : Z :=
  match String.compare a b with
  | Lt => -1
  | Eq => 0
  | Gt => 1
  end.

(** JS truthiness of an optional string: present and not empty. *)
Definition truthy (o : option string) : option string :=
  match o with
  | Some s => if String.eqb s "" then None else Some s
  | None => None
  end.

(** [a || b] on optional strings. *)
Definition or_else (o : option string) (d : string) : string :=
  match truthy o with
  | Some s => s
  | None => d
  end.

End JsString.

(** ** Dates *)

Module Moment.

Definition MS_PER_DAY : Z := 86400000.

(** [moment(t).add(n, 'days')] *)
Definition add_days (t n : Z) : Z := t + n * MS_PER_DAY.

(** [moment(a).isAfter(b)] *)
Definition isAfter (a b : Z) : bool := b <? a.

(** [moment(t).startOf('day')] and [endOf('day')] in a zone that is
    [utcOffset] milliseconds ahead of UTC. *)
Definition startOf_day (utcOffset t : Z) : Z :=
  t - (t + utcOffset) mod MS_PER_DAY.

Definition endOf_day (utcOffset t : Z) : Z :=
  startOf_day utcOffset t + MS_PER_DAY - 1.

(** [moment(a).isBefore(b, 'day')]: moment compares the end of [a]'s
    day with the instant [b]. *)
Definition isBefore_day (utcOffset a b : Z) : bool :=
  endOf_day utcOffset a <? b.

(** The calendar day an instant falls in, as a day number. *)
Definition dayOf (utcOffset t : Z) : Z := (t + utcOffset) / MS_PER_DAY.

End Moment.

(** ** Data model *)

Record ComputedDates := {
  cd_start : option Z;
  cd_end : option Z
}.

Record Task := {
  _id : string;
  order : string;
  name : string;
  responsible : list string;
  precedingTasks : option (list string);
  leadTime : Z;
  status : string;
  computedDates : option ComputedDates;
  actualCompletion : option Z;
  remarks : option string
}.

Record Season := {
  season_id : string;
  season_status : string;
  createdAt : Z
}.

(** [currentUser.department] is read as a string by [handleEditClick]
    and as an object with a [name] by [isCellEditable]. *)
Inductive Department :=
| DeptString (s : string)
| DeptObject (dept_name : string).

Record User := {
  role : option string;
  department : option Department
}.

#[global] Instance ComputedDates_eq_dec : EqDecision ComputedDates.
Proof. solve_decision. Defined.
#[global] Instance Task_eq_dec : EqDecision Task.
Proof. solve_decision. Defined.
#[global] Instance Season_eq_dec : EqDecision Season.
Proof. solve_decision. Defined.

(** [task.precedingTasks && task.precedingTasks.length > 0] guards every
    walk over the predecessors: an absent list is walked as an empty one. *)
Definition preds (t : Task) : list string :=
  match precedingTasks t with
  | Some l => l
  | None => []
  end.

(** ** Display order *)

(** The comparator passed to [Array.prototype.sort], three times in the
    page with the same body. *)
Definition compareOrder (a b : Task) : Z :=
  if (String.length (order a) <? String.length (order b))%nat then -1
  else if (String.length (order b) <? String.length (order a))%nat then 1
  else JsString.localeCompare (order a) (order b).

(** [Array.prototype.sort] is stable; an insertion sort that moves an
    element only past those that compare strictly greater is the stable
    sort for a comparator. *)
Fixpoint insertTask (cmp : Task -> Task -> Z) (x : Task) (l : list Task) : list Task :=
  match l with
  | [] => [x]
  | y :: l' => if 0 <? cmp x y then y :: insertTask cmp x l' else x :: y :: l'
  end.

Definition sortBy (cmp : Task -> Task -> Z) (l : list Task) : list Task :=
  foldr (insertTask cmp) [] l.

Definition sortTasks (tasks : list Task) : list Task := sortBy compareOrder tasks.

(** A task carrying only an order code, for examples about ordering. *)
Definition codeTask (c : string) : Task :=
  {| _id := c; order := c; name := ""; responsible := [];
     precedingTasks := None; leadTime := 0; status := "pending";
     computedDates := None; actualCompletion := None; remarks := None |}.

(** ** Reference timeline *)

Record TimelineEntry := {
  tl_start : Z;
  tl_end : Z
}.

(** [new Map(tasks.map(task => [task.order, task]))]: a later task with
    the same order code replaces an earlier one. *)
Definition tasksByOrder (tasks : list Task) : gmap string Task :=
  foldl (fun m task => <[order task := task]> m) ∅ tasks.

(** The [for ... of task.precedingTasks] loop: [None] is the [break]
    with [canCalculate = false], [Some d] the final
    [maxPrecedingEndDate]. *)
Fixpoint scanPreceding (byOrder : gmap string Task)
    (timeline : gmap string TimelineEntry)
    (maxPrecedingEndDate : Z) (codes : list string) : option Z :=
  match codes with
  | [] => Some maxPrecedingEndDate
  | precedingOrder :: rest =>
      match byOrder !! precedingOrder with
      | Some precedingTask =>
          match timeline !! _id precedingTask with
          | Some entry =>
              let precedingEndDate := tl_end entry in
              scanPreceding byOrder timeline
                (if Moment.isAfter precedingEndDate maxPrecedingEndDate
                 then precedingEndDate else maxPrecedingEndDate)
                rest
          | None => None
          end
      | None => None
      end
  end.

(** The body of [sortedTasks.forEach], threading the map and the
    counter [processedInThisIteration]. *)
Definition forEachTask (byOrder : gmap string Task) (seasonCreationDate : Z)
    (acc : gmap string TimelineEntry * Z) (task : Task)
    : gmap string TimelineEntry * Z :=
  match acc.1 !! _id task with
  | Some _ => acc
  | None =>
      match scanPreceding byOrder acc.1 seasonCreationDate (preds task) with
      | Some startDate =>
          let endDate := Moment.add_days startDate (leadTime task) in
          (<[_id task := {| tl_start := startDate; tl_end := endDate |}]> acc.1,
           acc.2 + 1)
      | None => acc
      end
  end.

Definition runPass (sortedTasks : list Task) (byOrder : gmap string Task)
    (seasonCreationDate : Z) (timeline : gmap string TimelineEntry)
    : gmap string TimelineEntry * Z :=
  foldl (forEachTask byOrder seasonCreationDate) (timeline, 0) sortedTasks.

Record LoopState := {
  ls_timeline : gmap string TimelineEntry;
  tasksToProcess : Z;
  iterations : Z
}.

(** The [while] loop.  [fuel] only makes the recursion structural; the
    loop's own guard is [iterations < MAX_ITERATIONS], and [None] means
    the fuel ran out before the loop stopped. *)
Fixpoint whileLoop (fuel : nat) (MAX_ITERATIONS : Z) (sortedTasks : list Task)
    (byOrder : gmap string Task) (seasonCreationDate : Z) (st : LoopState)
    : option LoopState :=
  match fuel with
  | O => None
  | S fuel' =>
      if (0 <? tasksToProcess st) && (iterations st <? MAX_ITERATIONS) then
        let pass := runPass sortedTasks byOrder seasonCreationDate (ls_timeline st) in
        let processedInThisIteration := pass.2 in
        let st' := {| ls_timeline := pass.1;
                      tasksToProcess := tasksToProcess st - processedInThisIteration;
                      iterations := iterations st + 1 |} in
        if (processedInThisIteration =? 0) && (0 <? tasksToProcess st')
        then Some st'
        else whileLoop fuel' MAX_ITERATIONS sortedTasks byOrder seasonCreationDate st'
      else Some st
  end.

Definition calculateReferenceTimeline_fuel (fuel : nat) (tasks : list Task)
    (seasonCreationDate : Z) : option LoopState :=
  match tasks with
  | [] => Some {| ls_timeline := ∅; tasksToProcess := 0; iterations := 0 |}
  | _ =>
      let byOrder := tasksByOrder tasks in
      let sortedTasks := sortTasks tasks in
      let n := Z.of_nat (length sortedTasks) in
      let MAX_ITERATIONS := n + 5 in
      whileLoop fuel MAX_ITERATIONS sortedTasks byOrder seasonCreationDate
        {| ls_timeline := ∅; tasksToProcess := n; iterations := 0 |}
  end.

(** One unit of fuel per admissible pass, and one for the final test of
    the guard. *)
Definition calculateReferenceTimeline_run (tasks : list Task)
    (seasonCreationDate : Z) : option LoopState :=
  calculateReferenceTimeline_fuel (S (length tasks + 5)) tasks seasonCreationDate.

Definition calculateReferenceTimeline (tasks : list Task) (seasonCreationDate : Z)
    : option (gmap string TimelineEntry) :=
  ls_timeline <$> calculateReferenceTimeline_run tasks seasonCreationDate.

(** *** The precedence graph, as the resolver sees it *)

Section Graph.
Variable tasks : list Task.

(** [t] names [p] as a predecessor: one of its codes looks up to [p]. *)
Definition edge (t p : Task) : Prop :=
  ∃ c, c ∈ preds t ∧ tasksByOrder tasks !! c = Some p.

(** [t] names a code that no task carries. *)
Definition dangling (t : Task) : Prop :=
  ∃ c, c ∈ preds t ∧ tasksByOrder tasks !! c = None.

Definition on_cycle (t : Task) : Prop := tc edge t t.

(** [t] is on a cycle or names a dangling code, or depends, through any
    number of edges, on a task that does. *)
Definition unresolvable (t : Task) : Prop :=
  ∃ u, rtc edge t u ∧ (on_cycle u ∨ dangling u).

End Graph.

(** *** Predicates on timeline maps *)

(** A code is resolved in [tl] with entry [e] when it looks up to a task
    whose identifier has the entry [e]. *)
Definition resolvedAs (tasks : list Task) (tl : gmap string TimelineEntry)
    (c : string) (e : TimelineEntry) : Prop :=
  ∃ p, tasksByOrder tasks !! c = Some p ∧ tl !! _id p = Some e.

(** The entry a task gets from the map [tl]. *)
Definition derived (tasks : list Task) (created : Z)
    (tl : gmap string TimelineEntry) (t : Task) (e : TimelineEntry) : Prop :=
  ∃ r, scanPreceding (tasksByOrder tasks) tl created (preds t) = Some r
       ∧ e = {| tl_start := r; tl_end := Moment.add_days r (leadTime t) |}.

(** [t] can be resolved: each of its codes looks up to a task, and each
    of those tasks can be resolved. *)
Inductive Resolvable (tasks : list Task) : Task -> Prop :=
| Resolvable_intro (t : Task) :
    (∀ c, c ∈ preds t → is_Some (tasksByOrder tasks !! c)) →
    (∀ p, edge tasks t p → Resolvable tasks p) →
    Resolvable tasks t.

(** Every entry of the map was computed for a task with that identifier
    from entries that are in the map; when identifiers are unique that
    task can be resolved. *)
Definition Inv (tasks : list Task) (created : Z)
    (tl : gmap string TimelineEntry) : Prop :=
  ∀ id e, tl !! id = Some e →
    ∃ t, t ∈ tasks ∧ _id t = id ∧ derived tasks created tl t e
         ∧ (NoDup (_id <$> tasks) → Resolvable tasks t).

(** A task without an entry cannot be computed from the map. *)
Definition stuck (tasks : list Task) (created : Z)
    (tl : gmap string TimelineEntry) (t : Task) : Prop :=
  tl !! _id t = None → scanPreceding (tasksByOrder tasks) tl created (preds t) = None.

(** What holds of the loop state at the head of the [while]: the counter
    [tasksToProcess] is the number of tasks less the number of entries,
    and every pass so far has added an entry. *)
Definition LoopInv (tasks : list Task) (created : Z) (st : LoopState) : Prop :=
  Inv tasks created (ls_timeline st)
  ∧ tasksToProcess st = Z.of_nat (length tasks) - Z.of_nat (size (ls_timeline st))
  ∧ 0 <= iterations st <= Z.of_nat (size (ls_timeline st)).

(** What holds of the state the loop stops in. *)
Definition Final (tasks : list Task) (created : Z) (st : LoopState) : Prop :=
  Inv tasks created (ls_timeline st)
  ∧ (∀ t, t ∈ tasks → stuck tasks created (ls_timeline st) t)
  ∧ 0 <= iterations st <= Z.of_nat (length tasks) + 5.

(** The maximum of the season's creation date and a list of end dates. *)
Definition maxEndDate (seasonCreationDate : Z) (ends : list Z) : Z :=
  foldr Z.max seasonCreationDate ends.

(** ** Actionability *)

Definition isTaskActionable (task : option Task) (allTasks : option (list Task)) : bool :=
  match task with
  | None => false
  | Some task =>
      if bool_decide (status task = "completed") || bool_decide (status task = "blocked")
      then false
      else
        match preds task with
        | [] => true
        | codes =>
            match allTasks with
            | None => false
            | Some allTasks =>
                forallb
                  (fun precedingTaskOrder =>
                     match find (fun t => bool_decide (order t = precedingTaskOrder)) allTasks with
                     | Some precedingTask => bool_decide (status precedingTask = "completed")
                     | None => false
                     end)
                  codes
            end
        end
  end.

(** ** Page state touched by the edit gates *)

Record AlertInfo := {
  alert_open : bool;
  alert_message : string;
  alert_severity : string
}.

Inductive GridRowModes := Edit | View.

Record RowMode := {
  mode : GridRowModes;
  fieldToFocus : option string
}.

Record PageState := {
  alertInfo : AlertInfo;
  rowModesModel : gmap string RowMode
}.

Definition setAlertInfo (a : AlertInfo) (st : PageState) : PageState :=
  {| alertInfo := a; rowModesModel := rowModesModel st |}.

Definition setRowModesModel (f : gmap string RowMode -> gmap string RowMode)
    (st : PageState) : PageState :=
  {| alertInfo := alertInfo st; rowModesModel := f (rowModesModel st) |}.

Definition warning (message : string) : AlertInfo :=
  {| alert_open := true; alert_message := message; alert_severity := "warning" |}.

Definition error (message : string) : AlertInfo :=
  {| alert_open := true; alert_message := message; alert_severity := "error" |}.

Definition success (message : string) : AlertInfo :=
  {| alert_open := true; alert_message := message; alert_severity := "success" |}.

(** ** The edit gates *)

(** [userRole === 'admin' || userRole === 'planner'] *)
Definition isAdminOrPlanner (userRole : option string) : bool :=
  bool_decide (userRole = Some "admin") || bool_decide (userRole = Some "planner").

(** The [for ... of] loop of [handleEditClick] that computes
    [predecessorsDone]: a code that looks up to nothing is skipped. *)
Fixpoint predecessorsDone (tasksMap : gmap string Task) (codes : list string) : bool :=
  match codes with
  | [] => true
  | predOrder :: rest =>
      match tasksMap !! predOrder with
      | Some predecessor =>
          if negb (bool_decide (status predecessor = "completed")) then false
          else predecessorsDone tasksMap rest
      | None => predecessorsDone tasksMap rest
      end
  end.

(** [task.responsible.includes(currentUser?.department)]: an array of
    strings holds neither [undefined] nor an object. *)
Definition includesDepartment (responsible : list string) (d : option Department) : bool :=
  match d with
  | Some (DeptString s) => bool_decide (s ∈ responsible)
  | Some (DeptObject _) => false
  | None => false
  end.

Definition msgTaskNotFound : string := "Task data not found.".
Definition msgCompletedLocked : string :=
  "Completed tasks can only be modified by Admin or Planner roles.".
Definition msgBlocked : string := "Blocked tasks cannot be edited.".
Definition msgPredecessors : string :=
  "This task is not yet actionable as preceding tasks are not complete.".
Definition msgNoTaskList : string :=
  "Cannot determine task actionability: task list unavailable.".
Definition msgDepartment : string :=
  "Your department is not allowed to edit this task.".

Definition handleEditClick (currentUser : option User) (taskList : option (list Task))
    (id : string) (task : option Task) (st : PageState) : PageState :=
  let userRole := JsString.toLowerCase <$> (currentUser ≫= role) in
  let isAdminOrPlanner := isAdminOrPlanner userRole in
  match task with
  | None => setAlertInfo (error msgTaskNotFound) st
  | Some task =>
      let taskStatusLower := JsString.toLowerCase (status task) in
      if bool_decide (taskStatusLower = "completed") && negb isAdminOrPlanner then
        setAlertInfo (warning msgCompletedLocked) st
      else if bool_decide (taskStatusLower = "blocked") then
        setAlertInfo (warning msgBlocked) st
      else
        let pendingDenied : option AlertInfo :=
          if bool_decide (taskStatusLower = "pending") then
            match taskList with
            | Some taskList =>
                let tasksMap := tasksByOrder taskList in
                if negb (predecessorsDone tasksMap (preds task))
                then Some (warning msgPredecessors) else None
            | None => Some (error msgNoTaskList)
            end
          else None in
        match pendingDenied with
        | Some a => setAlertInfo a st
        | None =>
            if negb isAdminOrPlanner
               && negb (includesDepartment (responsible task)
                          (currentUser ≫= department))
            then setAlertInfo (warning msgDepartment) st
            else
              setRowModesModel
                (fun oldModel =>
                   <[id := {| mode := Edit; fieldToFocus := Some "actualCompletion" |}]> oldModel)
                (setAlertInfo
                   {| alert_open := false; alert_message := ""; alert_severity := "info" |}
                   st)
      end
  end.

(** A call either returns or throws. *)
Inductive Completion (A : Type) :=
| Returns (a : A)
| Throws (err : string).
Arguments Returns {A} a.
Arguments Throws {A} err.

(** [isCellEditable(params)] with [row = params.row].  Reading
    [.toLowerCase()] off a missing [role], or off the [name] of a
    department that is a plain string, is a [TypeError]. *)
Definition isCellEditable (authLoading : bool) (currentUser : option User)
    (seasonDetails : option Season) (row : Task) : Completion bool :=
  match currentUser, seasonDetails with
  | Some user, Some season =>
      if authLoading then Returns false
      else if negb (bool_decide (season_status season = "Open")) then Returns false
      else
        match role user with
        | None => Throws "TypeError"
        | Some r =>
            let userRole := JsString.toLowerCase r in
            let isAdminOrPlanner := isAdminOrPlanner (Some userRole) in
            let taskStatusLower := JsString.toLowerCase (status row) in
            if bool_decide (taskStatusLower = "completed") && negb isAdminOrPlanner then
              Returns false
            else
              let responsibleDepartments := map JsString.toLowerCase (responsible row) in
              match department user with
              | None => Returns isAdminOrPlanner
              | Some (DeptObject dept_name) =>
                  let userDepartment := JsString.toLowerCase dept_name in
                  Returns (isAdminOrPlanner
                           || bool_decide (userDepartment ∈ responsibleDepartments))
              | Some (DeptString _) => Throws "TypeError"
              end
        end
  | _, _ => Returns false
  end.

(** The Edit action of a row in view mode: the button is
    [disabled={!isCellEditable(params)}], and its click runs
    [handleEditClick(params.id, params.row)] with [params.id = row._id].
    A disabled button dispatches no click. *)
Definition editActionClick (authLoading : bool) (currentUser : option User)
    (seasonDetails : option Season) (taskList : option (list Task))
    (row : Task) (st : PageState) : Completion PageState :=
  match isCellEditable authLoading currentUser seasonDetails row with
  | Returns true => Returns (handleEditClick currentUser taskList (_id row) (Some row) st)
  | Returns false => Returns st
  | Throws e => Throws e
  end.

(** ** The edit reducer *)

(** [apiPayload]: a key is present ([Some]) or not; [actualCompletion]
    and [remarks] can be present with a null or undefined value. *)
Record ApiPayload := {
  p_remarks : option (option string);
  p_actualCompletion : option (option Z);
  p_status : option string
}.

Definition emptyPayload : ApiPayload :=
  {| p_remarks := None; p_actualCompletion := None; p_status := None |}.

(** Whether a key has been assigned. *)
Definition hasKey {A : Type} (field : option A) : bool :=
  match field with
  | Some _ => true
  | None => false
  end.

(** [Object.keys(apiPayload)] *)
Definition payloadKeys (p : ApiPayload) : list string :=
  (if hasKey (p_remarks p) then ["remarks"] else [])
  ++ (if hasKey (p_actualCompletion p) then ["actualCompletion"] else [])
  ++ (if hasKey (p_status p) then ["status"] else []).

Record ApiResponse := {
  r_season : option Season;
  r_tasks : option (list Task);
  r_message : option string
}.

(** What the [catch] clause reads off a failed call:
    [err.response.data.message] and [err.message]. *)
Record ApiError := {
  e_response_message : option string;
  e_message : option string
}.

Inductive ApiReply :=
| Replied (response : option ApiResponse)
| Failed (err : ApiError).

Inductive Effect :=
| SetAlertInfo (a : AlertInfo)
| SetIsUpdating (b : bool)
| UpdateTaskInSeason (seasonId taskId : string) (payload : ApiPayload)
| SetSeasonDetails (s : Season)
| SetTaskList (l : list Task).

(** How the returned promise settles. *)
Inductive Settled :=
| Resolved (row : Task)
| Rejected (message : string).

Definition msgInvalidDate : string :=
  "Actual completion date cannot be earlier than the start date.".
Definition msgInvalidResponse : string :=
  "Received an invalid response from the server after update.".
Definition msgUnknown : string := "An unknown error occurred during task update.".
Definition msgUpdated : string := "Task updated successfully!".

(** [newRow.computedDates?.start] *)
Definition computedStart (row : Task) : option Z := computedDates row ≫= cd_start.

(** The guard that rejects a completion date. *)
Definition completionBeforeStart (utcOffset : Z) (newCompletion : option Z)
    (newRow : Task) : bool :=
  match newCompletion, computedStart newRow with
  | Some d, Some s => Moment.isBefore_day utcOffset d s
  | _, _ => false
  end.

(** The statements of [handleProcessRowUpdate] that build [apiPayload];
    [None] is the early [Promise.reject(new Error('Invalid date'))]. *)
Definition buildPayload (utcOffset : Z) (newRow oldRow : Task) : option ApiPayload :=
  let p1 :=
    if bool_decide (remarks newRow ≠ remarks oldRow)
    then {| p_remarks := Some (remarks newRow);
            p_actualCompletion := None; p_status := None |}
    else emptyPayload in
  let oldCompletion := actualCompletion oldRow in
  let newCompletion := actualCompletion newRow in
  let p2 :=
    if bool_decide (newCompletion ≠ oldCompletion) then
      if completionBeforeStart utcOffset newCompletion newRow then None
      else Some {| p_remarks := p_remarks p1;
                   p_actualCompletion := Some newCompletion;
                   p_status := p_status p1 |}
    else Some p1 in
  match p2 with
  | None => None
  | Some p2 =>
      Some
        (match p_actualCompletion p2 with
         | Some (Some _) =>
             if bool_decide (status newRow ≠ "completed")
             then {| p_remarks := p_remarks p2;
                     p_actualCompletion := p_actualCompletion p2;
                     p_status := Some "completed" |}
             else p2
         | _ => p2
         end)
  end.

(** The [try] / [catch] / [finally] around the persistence call. *)
Definition afterReply (newRow : Task) (reply : ApiReply) : list Effect * Settled :=
  let failure (errorMessage : string) :=
    ([SetAlertInfo (error errorMessage); SetIsUpdating false], Rejected errorMessage) in
  match reply with
  | Replied (Some {| r_season := Some season; r_tasks := Some tasks; r_message := m |}) =>
      let sortedTasks := sortTasks tasks in
      let updatedTask := find (fun task => bool_decide (_id task = _id newRow)) sortedTasks in
      ([SetSeasonDetails season; SetTaskList sortedTasks;
        SetAlertInfo (success (JsString.or_else m msgUpdated));
        SetIsUpdating false],
       Resolved (default newRow updatedTask))
  | Replied _ => failure msgInvalidResponse
  | Failed err =>
      failure
        (JsString.or_else (e_response_message err)
           (JsString.or_else (e_message err) msgUnknown))
  end.

(** [handleProcessRowUpdate(newRow, oldRow)]; [updateTaskInSeason]
    stands for the persistence collaborator. *)
Definition handleProcessRowUpdate (utcOffset : Z) (seasonId : string)
    (updateTaskInSeason : string -> string -> ApiPayload -> ApiReply)
    (newRow oldRow : Task) : list Effect * Settled :=
  match buildPayload utcOffset newRow oldRow with
  | None => ([SetAlertInfo (error msgInvalidDate)], Rejected "Invalid date")
  | Some apiPayload =>
      if bool_decide (length (payloadKeys apiPayload) = 0%nat) then ([], Resolved oldRow)
      else
        let reply := updateTaskInSeason seasonId (_id newRow) apiPayload in
        let rest := afterReply newRow reply in
        (SetIsUpdating true :: UpdateTaskInSeason seasonId (_id newRow) apiPayload :: rest.1,
         rest.2)
  end.

(** What a run looks like once a payload has been built and is not
    empty: the busy flag, the persistence call, and what follows from
    the reply. *)
Definition submits (utcOffset : Z) (seasonId : string)
    (api : string -> string -> ApiPayload -> ApiReply) (newRow oldRow : Task)
    (payload : ApiPayload) : Prop :=
  buildPayload utcOffset newRow oldRow = Some payload
  ∧ handleProcessRowUpdate utcOffset seasonId api newRow oldRow
    = (SetIsUpdating true :: UpdateTaskInSeason seasonId (_id newRow) payload
         :: (afterReply newRow (api seasonId (_id newRow) payload)).1,
       (afterReply newRow (api seasonId (_id newRow) payload)).2).

(** Whether a run called the persistence collaborator. *)
Definition callsPersistence (effects : list Effect) : bool :=
  existsb (fun e => match e with UpdateTaskInSeason _ _ _ => true | _ => false end) effects.

(** Whether a run raised an error alert. *)
Definition reportsError (effects : list Effect) : bool :=
  existsb
    (fun e => match e with
              | SetAlertInfo a => bool_decide (alert_severity a = "error")
              | _ => false
              end)
    effects.

(** ** Example data *)

(** A pending task "B" after a completed "A", one after a pending "C",
    and one after a code "Q" that no task carries. *)
Definition exTask (id code : string) (before : list string) (st : string) : Task :=
  {| _id := id; order := code; name := ""; responsible := ["Sales"];
     precedingTasks := Some before; leadTime := 1; status := st;
     computedDates := None; actualCompletion := None; remarks := None |}.

Definition exList : list Task :=
  [exTask "1" "A" [] "completed"; exTask "2" "B" ["A"] "pending";
   exTask "3" "C" [] "pending"; exTask "4" "D" ["C"] "pending";
   exTask "5" "E" ["Q"] "pending"; exTask "6" "F" [] "blocked"].


Definition adminUser : User := {| role := Some "Admin"; department := None |}.

Definition salesUser : User :=
  {| role := Some "User"; department := Some (DeptObject "Sales") |}.

Definition openSeason : Season :=
  {| season_id := "s1"; season_status := "Open"; createdAt := 0 |}.

Definition heldSeason : Season :=
  {| season_id := "s1"; season_status := "On-Hold"; createdAt := 0 |}.

Definition idleState : PageState :=
  {| alertInfo := {| alert_open := false; alert_message := ""; alert_severity := "info" |};
     rowModesModel := ∅ |}.

(** The state after [handleEditClick] lets row [id] into edit mode. *)
Definition editing (id : string) (st : PageState) : PageState :=
  {| alertInfo := {| alert_open := false; alert_message := ""; alert_severity := "info" |};
     rowModesModel :=
       <[id := {| mode := Edit; fieldToFocus := Some "actualCompletion" |}]>
         (rowModesModel st) |}.

(** Noon of day [n], in milliseconds. *)
Definition noon (n : Z) : Z := n * Moment.MS_PER_DAY + 43200000.

(** A row with a planned start and an actual completion. *)
Definition plannedTask (start completion : option Z) (st : string) : Task :=
  {| _id := "7"; order := "G"; name := ""; responsible := ["Sales"];
     precedingTasks := None; leadTime := 2; status := st;
     computedDates := Some {| cd_start := start; cd_end := None |};
     actualCompletion := completion; remarks := None |}.

(** A persistence collaborator whose call fails. *)
Definition failingApi (seasonId taskId : string) (payload : ApiPayload) : ApiReply :=
  Failed {| e_response_message := None; e_message := Some "Network Error" |}.

(** A task of a plan: identifier, order code, predecessors, lead time. *)
Definition planTask (id code : string) (before : list string) (lead : Z) : Task :=
  {| _id := id; order := code; name := ""; responsible := [];
     precedingTasks := Some before; leadTime := lead; status := "pending";
     computedDates := None; actualCompletion := None; remarks := None |}.

(** 2024-01-01T00:00:00Z, and [n] days later. *)
Definition jan1 : Z := 1704067200000.
Definition jan (n : Z) : Z := Moment.add_days jan1 (n - 1).

(** "A" then "B"; "C" and "D" name each other; "E" names a code that no
    task carries; "F" waits for "C"; "G" waits for "A" and "B". *)
Definition plan : list Task :=
  [planTask "g" "G" ["A"; "B"] 2; planTask "f" "F" ["C"] 1;
   planTask "e" "E" ["Q"] 1; planTask "d" "D" ["C"] 1;
   planTask "c" "C" ["D"] 1; planTask "b" "B" ["A"] 3;
   planTask "a" "A" [] 5].

(** ** Row styling *)

(** [getRowClassName(params)] with [task = params.row]. *)
Definition getRowClassName (task : option Task) (taskList : list Task) : string :=
  match task with
  | None => ""
  | Some task =>
      if bool_decide (status task = "completed") then "row-completed"
      else if bool_decide (status task = "blocked") then "row-blocked"
      else if isTaskActionable (Some task) (Some taskList) then "row-actionable"
      else if bool_decide (status task = "pending") then "row-pending"
      else ""
  end.

(** The [color] and the [variant] of the status chip, with
    [params.value = row.status]. *)
Definition statusChipColor (row : Task) (taskList : list Task) : string :=
  if bool_decide (status row = "completed") then "success"
  else if bool_decide (status row = "pending")
          && isTaskActionable (Some row) (Some taskList) then "warning"
  else if bool_decide (status row = "blocked") then "error"
  else "default".

Definition statusChipVariant (row : Task) (taskList : list Task) : string :=
  if isTaskActionable (Some row) (Some taskList)
     || bool_decide (status row = "completed")
  then "filled" else "outlined".

(** ** More handlers of the grid *)

Definition targetFields : list string := ["actualCompletion"; "remarks"].

(** [handleCellDoubleClick(params, event)]: the new page state and
    whether [event.defaultMuiPrevented] was set. *)
Definition handleCellDoubleClick (currentUser : option User) (field : string)
    (row : option Task) (st : PageState) : PageState * bool :=
  if negb (bool_decide (field ∈ targetFields)) then (st, false)
  else
    let userRole := JsString.toLowerCase <$> (currentUser ≫= role) in
    let isAdminOrPlanner := isAdminOrPlanner userRole in
    let taskStatusLower := JsString.toLowerCase <$> (status <$> row) in
    if bool_decide (taskStatusLower = Some "completed") && negb isAdminOrPlanner
    then (setAlertInfo (warning msgCompletedLocked) st, true)
    else (st, false).

Definition msgUnexpected : string :=
  "An unexpected error occurred while saving the task.".

(** [handleProcessRowUpdateError(error)] *)
Definition handleProcessRowUpdateError (st : PageState) : PageState :=
  let prev := alertInfo st in
  setAlertInfo
    {| alert_open := true;
       alert_message :=
         if negb (String.eqb (alert_message prev) "") && alert_open prev
         then alert_message prev else msgUnexpected;
       alert_severity := "error" |}
    st.

(** The alert that a run of a handler leaves on the page. *)
Definition applyEffect (st : PageState) (e : Effect) : PageState :=
  match e with
  | SetAlertInfo a => setAlertInfo a st
  | _ => st
  end.

Definition applyEffects (effects : list Effect) (st : PageState) : PageState :=
  foldl applyEffect st effects.

(** Whether a run replaced the snapshot of season or tasks. *)
Definition replacesSnapshot (effects : list Effect) : bool :=
  existsb
    (fun e => match e with
              | SetSeasonDetails _ | SetTaskList _ => true
              | _ => false
              end)
    effects.

Definition msgRemarksUpdated : string := "Remarks updated successfully!".
Definition msgRemarksInvalid : string :=
  "Invalid response from server when updating remarks.".
Definition msgRemarksFailed : string := "Failed to update remarks.".

(** [handleRemarkUpdate(row, newRemarks)] *)
Definition handleRemarkUpdate (seasonId : string)
    (updateTaskInSeason : string -> string -> ApiPayload -> ApiReply)
    (row : Task) (newRemarks : string) : list Effect :=
  let apiPayload :=
    {| p_remarks := Some (Some newRemarks); p_actualCompletion := None;
       p_status := None |} in
  let reply := updateTaskInSeason seasonId (_id row) apiPayload in
  SetIsUpdating true :: UpdateTaskInSeason seasonId (_id row) apiPayload
  :: (match reply with
      | Replied (Some {| r_season := _; r_tasks := Some tasks; r_message := _ |}) =>
          [SetTaskList (sortTasks tasks); SetAlertInfo (success msgRemarksUpdated)]
      | Replied _ => [SetAlertInfo (error msgRemarksInvalid)]
      | Failed err =>
          [SetAlertInfo (error (JsString.or_else (e_message err) msgRemarksFailed))]
      end)
  ++ [SetIsUpdating false].

(** Saving from the remarks editor.  The remarks cell is rendered with
    [isEditable = isCellEditable(params)]; the modal offers its Save
    button only when [isEditable], and the button calls
    [handleRemarkUpdate(params.row, editedRemarks)]. *)
Definition remarksSaveClick (authLoading : bool) (currentUser : option User)
    (seasonDetails : option Season) (seasonId : string)
    (updateTaskInSeason : string -> string -> ApiPayload -> ApiReply)
    (row : Task) (editedRemarks : string) : Completion (list Effect) :=
  match isCellEditable authLoading currentUser seasonDetails row with
  | Returns true =>
      Returns (handleRemarkUpdate seasonId updateTaskInSeason row editedRemarks)
  | Returns false => Returns []
  | Throws e => Throws e
  end.

(** ** The "Date Spend" cell *)

(** [`${n}`] for an integer [n]. *)
Definition showZ (n : Z) : string := DecimalString.NilZero.string_of_int (Z.to_int n).

(** [a.diff(b, 'days')]: whole days, truncated towards zero. *)
Definition diff_days (a b : Z) : Z := Z.quot (a - b) Moment.MS_PER_DAY.

Inductive DateSpendCell :=
| NoSpend
| Spend (text color : string).

(** [renderCell] of the [dateSpend] column. *)
Definition dateSpend (utcOffset : Z) (row : option Task) : DateSpendCell :=
  match row with
  | None => NoSpend
  | Some row =>
      match actualCompletion row, computedDates row ≫= cd_end with
      | Some completion, Some planned =>
          let actual := Moment.startOf_day utcOffset completion in
          let plannedEnd := Moment.startOf_day utcOffset planned in
          let diff := diff_days actual plannedEnd in
          Spend
            (if 0 <? diff then "+" ++ showZ diff ++ "d" else showZ diff ++ "d")
            (if 0 <? diff then "error.main"
             else if diff <? 0 then "success.main" else "text.secondary")
      | _, _ => NoSpend
      end
  end.

(** ** Season status and export *)

Module Page.

Inductive Effect :=
| SetIsUpdating (b : bool)
| UpdateSeasonStatus (seasonId status : string)
| SetSeasonDetails (s : Season)
| SetAlertInfo (a : AlertInfo)
| SetError (message : string)
| SetSelectedStatus (status : string)
| SetIsExporting (b : bool)
| ExportSeasonToExcel (seasonId : string)
| Download (filename : string).

End Page.

Inductive SeasonReply :=
| SeasonUpdated (updatedSeason : Season)
| SeasonFailed (err : ApiError).

Definition msgStatusUpdated : string := "Season status updated successfully!".
Definition msgStatusFailed : string := "Failed to update season status.".

(** [handleStatusUpdate()]; reading [seasonDetails.status] off a
    missing season is a [TypeError]. *)
Definition handleStatusUpdate (seasonId : option string) (selectedStatus : string)
    (seasonDetails : option Season)
    (updateSeasonStatus : string -> string -> SeasonReply)
    : Completion (list Page.Effect) :=
  match JsString.truthy seasonId with
  | None => Returns []
  | Some seasonId =>
      if String.eqb selectedStatus "" then Returns []
      else
        match seasonDetails with
        | None => Throws "TypeError"
        | Some season =>
            if bool_decide (selectedStatus = season_status season) then Returns []
            else
              Returns
                (Page.SetIsUpdating true
                 :: Page.UpdateSeasonStatus seasonId selectedStatus
                 :: (match updateSeasonStatus seasonId selectedStatus with
                     | SeasonUpdated updatedSeason =>
                         [Page.SetSeasonDetails updatedSeason;
                          Page.SetAlertInfo (success msgStatusUpdated)]
                     | SeasonFailed err =>
                         let m := JsString.or_else (e_message err) msgStatusFailed in
                         [Page.SetError m; Page.SetAlertInfo (error m);
                          Page.SetSelectedStatus (season_status season)]
                     end)
                 ++ [Page.SetIsUpdating false])
        end
  end.

(** The double quote character. *)
Definition dquote : ascii := ascii_of_nat 34.

(** The characters that [.] of a regular expression does not match,
    among the ASCII ones: line feed and carriage return. *)
Definition isLineTerminator (c : ascii) : bool :=
  Ascii.eqb c (ascii_of_nat 10) || Ascii.eqb c (ascii_of_nat 13).

Fixpoint noLineTerminator (s : string) : bool :=
  match s with
  | EmptyString => true
  | String c s' => negb (isLineTerminator c) && noLineTerminator s'
  end.

(** What a greedy [.+] takes at the head of [s]. *)
Fixpoint dotPlus (s : string) : string :=
  match s with
  | EmptyString => EmptyString
  | String c s' => if isLineTerminator c then EmptyString else String c (dotPlus s')
  end.

(** [p] removed from the head of [s]. *)
Fixpoint stripPrefix (p s : string) : option string :=
  match p with
  | EmptyString => Some s
  | String a p' =>
      match s with
      | String b s' => if Ascii.eqb a b then stripPrefix p' s' else None
      | EmptyString => None
      end
  end.

(** The rest of the pattern, ["?(.+)"?], matched at the head of [r];
    the result is the group.  The greedy group runs to the end of the
    line, so the closing ["?] always matches nothing; the opening ["?]
    gives the quote back when nothing else is left for the group. *)
Definition afterFilenameEq (r : string) : option string :=
  let group (s : string) :=
    match dotPlus s with
    | EmptyString => None
    | cap => Some cap
    end in
  match r with
  | String c r' =>
      if Ascii.eqb c dquote then
        match group r' with
        | Some cap => Some cap
        | None => group r
        end
      else group r
  | EmptyString => None
  end.

(** [s.match(/filename="?(.+)"?/)]: the group of the leftmost match. *)
Fixpoint matchFilename (s : string) : option string :=
  let here :=
    match stripPrefix "filename=" s with
    | Some r => afterFilenameEq r
    | None => None
    end in
  match here with
  | Some cap => Some cap
  | None =>
      match s with
      | String _ s' => matchFilename s'
      | EmptyString => None
      end
  end.

(** The file name that [handleExport] gives the download;
    [filenameMatch.length] of a failed match is a [TypeError]. *)
Definition exportFileName (seasonId : string) (contentDisposition : option string)
    : Completion string :=
  match JsString.truthy contentDisposition with
  | None => Returns ("season_" ++ seasonId ++ "_export.xlsx")
  | Some header =>
      match matchFilename header with
      | Some filename => Returns filename
      | None => Throws "TypeError"
      end
  end.

Inductive ExportReply :=
| Exported (contentDisposition : option string)
| ExportFailed.

Definition msgExportFailed : string := "Failed to export season data.".

(** [handleExport()]; [Download] stands for the link that is created,
    named, clicked and removed. *)
Definition handleExport (seasonId : string)
    (exportSeasonToExcel : string -> ExportReply) : list Page.Effect :=
  Page.SetIsExporting true :: Page.ExportSeasonToExcel seasonId
  :: (match exportSeasonToExcel seasonId with
      | Exported contentDisposition =>
          match exportFileName seasonId contentDisposition with
          | Returns filename => [Page.Download filename]
          | Throws _ => [Page.SetAlertInfo (error msgExportFailed)]
          end
      | ExportFailed => [Page.SetAlertInfo (error msgExportFailed)]
      end)
  ++ [Page.SetIsExporting false].

(** * Properties *)

(** ** Actionability *)

Lemma isTaskActionable_closed (task : Task) (allTasks : option (list Task)) :
  status task = "completed" ∨ status task = "blocked" →
  isTaskActionable (Some task) allTasks = false.
Proof.
  intros [H | H]; unfold isTaskActionable; rewrite H; reflexivity.
Qed.

Lemma isTaskActionable_open (task : Task) (allTasks : list Task) :
  status task ≠ "completed" → status task ≠ "blocked" →
  isTaskActionable (Some task) (Some allTasks) = true ↔
  ∀ c, c ∈ preds task →
    ∃ p, find (fun t => bool_decide (order t = c)) allTasks = Some p
         ∧ status p = "completed".
Proof.
  intros Hc Hb. unfold isTaskActionable.
  rewrite !bool_decide_eq_false_2 by assumption. cbn [orb].
  destruct (preds task) as [| c0 cs] eqn:E.
  - split; [intros _ c Hin; inversion Hin | reflexivity].
  - lazy beta match zeta. rewrite forallb_forall. split.
    + intros H c Hin. apply list_elem_of_In in Hin. specialize (H c Hin).
      destruct (find _ allTasks) as [p |]; [| discriminate].
      exists p. split; [reflexivity |]. by apply bool_decide_eq_true in H.
    + intros H c Hin. apply list_elem_of_In in Hin.
      destruct (H c Hin) as (p & -> & Hp). by apply bool_decide_eq_true.
Qed.

(** C3. [isTaskActionable] is false for a completed or blocked task;
    true for a pending task with no predecessors; and for any task that
    is neither completed nor blocked it is true exactly when every code
    in [precedingTasks] looks up (first task of the list with that order)
    to a task whose status is completed, so a code that looks up to no
    task makes it false. *)
Theorem isTaskActionable_spec (task : Task) (allTasks : list Task) :
  (status task = "completed" ∨ status task = "blocked" →
     isTaskActionable (Some task) (Some allTasks) = false)
  ∧ (status task = "pending" → preds task = [] →
     isTaskActionable (Some task) (Some allTasks) = true)
  ∧ (status task ≠ "completed" → status task ≠ "blocked" →
     (isTaskActionable (Some task) (Some allTasks) = true ↔
      ∀ c, c ∈ preds task →
        ∃ p, find (fun t => bool_decide (order t = c)) allTasks = Some p
             ∧ status p = "completed"))
  ∧ (∀ c, c ∈ preds task →
       find (fun t => bool_decide (order t = c)) allTasks = None →
       isTaskActionable (Some task) (Some allTasks) = false).
Proof.
  split; [apply isTaskActionable_closed |].
  split.
  { intros Hs He. unfold isTaskActionable. rewrite Hs, He. reflexivity. }
  split; [apply isTaskActionable_open |].
  intros c Hin Hnone.
  destruct (decide (status task = "completed")) as [Hc | Hc];
    [apply isTaskActionable_closed; by left |].
  destruct (decide (status task = "blocked")) as [Hb | Hb];
    [apply isTaskActionable_closed; by right |].
  apply not_true_is_false. intros Htrue.
  pose proof (proj1 (isTaskActionable_open task allTasks Hc Hb) Htrue) as Hall.
  destruct (Hall c Hin) as (p & Hp & _). congruence.
Qed.

Lemma isTaskActionable_spec_witness :
  isTaskActionable (Some (exTask "6" "F" [] "blocked")) (Some exList) = false
  ∧ isTaskActionable (Some (exTask "3" "C" [] "pending")) (Some exList) = true
  ∧ isTaskActionable (Some (exTask "2" "B" ["A"] "pending")) (Some exList) = true
  ∧ isTaskActionable (Some (exTask "5" "E" ["Q"] "pending")) (Some exList) = false.
Proof.
  split.
  { destruct (isTaskActionable_spec (exTask "6" "F" [] "blocked") exList)
      as (Hclosed & _).
    apply Hclosed. right. reflexivity. }
  split.
  { destruct (isTaskActionable_spec (exTask "3" "C" [] "pending") exList)
      as (_ & Hfree & _).
    apply Hfree; reflexivity. }
  split.
  { destruct (isTaskActionable_spec (exTask "2" "B" ["A"] "pending") exList)
      as (_ & _ & Hiff & _).
    apply Hiff.
    - discriminate.
    - discriminate.
    - intros c Hin. apply list_elem_of_singleton in Hin. subst c.
      exists (exTask "1" "A" [] "completed"). split; reflexivity. }
  destruct (isTaskActionable_spec (exTask "5" "E" ["Q"] "pending") exList)
    as (_ & _ & _ & Hnone).
  apply (Hnone "Q").
  - apply list_elem_of_singleton. reflexivity.
  - reflexivity.
Defined.

(** ** Display order *)

Lemma localeCompare_antisym (a b : string) :
  0 < JsString.localeCompare a b → JsString.localeCompare b a < 0.
Proof.
  unfold JsString.localeCompare. rewrite (String.compare_antisym a b).
  destruct (String.compare b a); simpl; lia.
Qed.

(** The collation compares the first characters by code and, when they
    are equal, the rest of the words. *)
Lemma localeCompare_cons (c c' : ascii) (s s' : string) :
  JsString.localeCompare (String c s) (String c' s') =
  match Ascii.compare c c' with
  | Eq => JsString.localeCompare s s'
  | Lt => -1
  | Gt => 1
  end.
Proof.
  unfold JsString.localeCompare. simpl. destruct (Ascii.compare c c'); reflexivity.
Qed.

Lemma compareOrder_total (a b : Task) :
  0 < compareOrder a b → compareOrder b a <= 0.
Proof.
  unfold compareOrder.
  destruct (Nat.ltb_spec (String.length (order a)) (String.length (order b)));
    [lia |].
  destruct (Nat.ltb_spec (String.length (order b)) (String.length (order a)));
    [lia |].
  intros Hpos. apply localeCompare_antisym in Hpos. lia.
Qed.

Section Sorting.
Variable cmp : Task -> Task -> Z.

Lemma insertTask_Permutation (x : Task) (l : list Task) :
  Permutation (x :: l) (insertTask cmp x l).
Proof.
  induction l as [| y l IH]; simpl; [reflexivity |].
  destruct (0 <? cmp x y); [| reflexivity].
  rewrite perm_swap. by constructor.
Qed.

Lemma sortBy_Permutation (l : list Task) : Permutation l (sortBy cmp l).
Proof.
  induction l as [| x l IH]; simpl; [reflexivity |].
  rewrite <- insertTask_Permutation. by constructor.
Qed.

Hypothesis cmp_total : ∀ a b, 0 < cmp a b → cmp b a <= 0.

Lemma insertTask_HdRel (x y : Task) (l : list Task) :
  cmp y x <= 0 → HdRel (fun a b => cmp a b <= 0) y l →
  HdRel (fun a b => cmp a b <= 0) y (insertTask cmp x l).
Proof.
  intros Hyx Hhd. destruct l as [| z l]; simpl; [by constructor |].
  destruct (0 <? cmp x z); constructor; [by inversion Hhd | done].
Qed.

Lemma insertTask_Sorted (x : Task) (l : list Task) :
  Sorted (fun a b => cmp a b <= 0) l →
  Sorted (fun a b => cmp a b <= 0) (insertTask cmp x l).
Proof.
  induction 1 as [| y l Hs IH Hhd]; simpl.
  - repeat constructor.
  - destruct (Z.ltb_spec 0 (cmp x y)) as [Hgt | Hle].
    + constructor; [exact IH |]. apply insertTask_HdRel; [| exact Hhd].
      by apply cmp_total.
    + constructor; [by constructor |]. by constructor.
Qed.

Lemma sortBy_Sorted (l : list Task) : Sorted (fun a b => cmp a b <= 0) (sortBy cmp l).
Proof.
  induction l as [| x l IH]; simpl; [constructor |]. by apply insertTask_Sorted.
Qed.

End Sorting.

Lemma sortTasks_Permutation (tasks : list Task) : Permutation tasks (sortTasks tasks).
Proof. apply sortBy_Permutation. Qed.

Lemma elem_of_sortTasks (tasks : list Task) (t : Task) : t ∈ sortTasks tasks ↔ t ∈ tasks.
Proof. by rewrite <- sortTasks_Permutation. Qed.

Lemma length_sortTasks (tasks : list Task) : length (sortTasks tasks) = length tasks.
Proof. symmetry. apply Permutation_length, sortTasks_Permutation. Qed.

(** C8. The comparator puts a shorter order code before a longer one
    and compares codes of equal length lexicographically; the sort it
    drives returns a rearrangement of its input that is ordered by the
    comparator; and tasks coded Z, AA, B, A come out as A, B, Z, AA. *)
Theorem compareOrder_sorts_by_length_then_code :
  (∀ a b, (String.length (order a) < String.length (order b))%nat →
     compareOrder a b = -1 ∧ compareOrder b a = 1)
  ∧ (∀ a b, String.length (order a) = String.length (order b) →
     compareOrder a b = JsString.localeCompare (order a) (order b))
  ∧ (∀ tasks, Permutation tasks (sortTasks tasks)
              ∧ Sorted (fun a b => compareOrder a b <= 0) (sortTasks tasks))
  ∧ (∀ tasks, map order tasks = ["Z"; "AA"; "B"; "A"] →
       map order (sortTasks tasks) = ["A"; "B"; "Z"; "AA"]).
Proof.
  split.
  { intros a b Hlt. unfold compareOrder.
    destruct (Nat.ltb_spec (String.length (order a)) (String.length (order b)));
      [| lia].
    destruct (Nat.ltb_spec (String.length (order b)) (String.length (order a)));
      [lia |]. done. }
  split.
  { intros a b Heq. unfold compareOrder. rewrite Heq, Nat.ltb_irrefl. done. }
  split.
  { intros tasks. split; [apply sortTasks_Permutation |].
    apply sortBy_Sorted, compareOrder_total. }
  intros tasks Hcodes.
  destruct tasks as [| t1 [| t2 [| t3 [| t4 [| t5 rest]]]]]; try discriminate.
  injection Hcodes as H1 H2 H3 H4.
  destruct t1, t2, t3, t4. simpl in H1, H2, H3, H4. subst. reflexivity.
Qed.

Lemma compareOrder_sorts_by_length_then_code_witness :
  (compareOrder (codeTask "Z") (codeTask "AA") = -1
   ∧ compareOrder (codeTask "AA") (codeTask "Z") = 1)
  ∧ compareOrder (codeTask "B") (codeTask "A") = 1
  ∧ map order (sortTasks (map codeTask ["Z"; "AA"; "B"; "A"])) = ["A"; "B"; "Z"; "AA"].
Proof.
  destruct compareOrder_sorts_by_length_then_code as (Hlen & Hlex & _ & Hex).
  split; [apply Hlen; simpl; lia |].
  split; [rewrite Hlex; reflexivity |].
  apply Hex. reflexivity.
Defined.

(** ** The edit gates *)

(** C4. Whoever the user is and whatever the row, when the season's
    status is not Open [isCellEditable] returns false, before the role,
    the task status or the department are looked at, and the Edit action
    it guards leaves the page state as it was: [handleEditClick] and its
    rules are not reached. *)
Theorem season_not_open_denies_edit (authLoading : bool) (currentUser : option User)
    (season : Season) (taskList : option (list Task)) (row : Task) (st : PageState) :
  season_status season ≠ "Open" →
  isCellEditable authLoading currentUser (Some season) row = Returns false
  ∧ editActionClick authLoading currentUser (Some season) taskList row st = Returns st.
Proof.
  intros Hst.
  assert (isCellEditable authLoading currentUser (Some season) row = Returns false) as E.
  { unfold isCellEditable. destruct currentUser; [| reflexivity].
    destruct authLoading; [reflexivity |].
    by rewrite bool_decide_eq_false_2. }
  split; [exact E |]. unfold editActionClick. by rewrite E.
Qed.

Lemma season_not_open_denies_edit_witness :
  isCellEditable false (Some adminUser) (Some heldSeason)
    (exTask "3" "C" [] "pending") = Returns false
  ∧ editActionClick false (Some adminUser) (Some heldSeason) (Some exList)
      (exTask "3" "C" [] "pending") idleState = Returns idleState.
Proof.
  apply (season_not_open_denies_edit false (Some adminUser) heldSeason (Some exList)
           (exTask "3" "C" [] "pending") idleState).
  discriminate.
Defined.

(** With an open season the same click by the same user does enter edit
    mode, so the denial above is the season guard's. *)
Example open_season_allows_edit :
  editActionClick false (Some adminUser) (Some openSeason) (Some exList)
    (exTask "3" "C" [] "pending") idleState = Returns (editing "3" idleState).
Proof. reflexivity. Qed.

(** The blocked rule of [handleEditClick].  For every user, Admin and
    Planner included, [handleEditClick] on a task whose status is blocked
    raises the warning "Blocked tasks cannot be edited." and changes
    nothing else; the Edit action as a whole never puts such a row into
    edit mode. *)
Theorem blocked_task_edit_denied (currentUser : option User)
    (taskList : option (list Task)) (id : string) (task : Task) (st : PageState) :
  status task = "blocked" →
  handleEditClick currentUser taskList id (Some task) st
    = setAlertInfo (warning msgBlocked) st
  ∧ ∀ authLoading seasonDetails,
      match editActionClick authLoading currentUser seasonDetails taskList task st with
      | Returns st' => rowModesModel st' = rowModesModel st
      | Throws _ => True
      end.
Proof.
  intros Hst.
  assert (handleEditClick currentUser taskList id (Some task) st
          = setAlertInfo (warning msgBlocked) st) as E.
  { unfold handleEditClick. rewrite Hst. reflexivity. }
  split; [exact E |].
  intros authLoading seasonDetails. unfold editActionClick.
  destruct (isCellEditable _ _ _ _) as [[|] | e]; [| reflexivity | exact I].
  unfold handleEditClick. rewrite Hst. reflexivity.
Qed.

Lemma blocked_task_edit_denied_witness :
  handleEditClick (Some adminUser) (Some exList) "6"
    (Some (exTask "6" "F" [] "blocked")) idleState
  = setAlertInfo (warning msgBlocked) idleState.
Proof.
  apply (blocked_task_edit_denied (Some adminUser) (Some exList) "6"
           (exTask "6" "F" [] "blocked") idleState).
  reflexivity.
Defined.

(** [isCellEditable], which alone gates the remarks editor, has no rule
    for blocked tasks: the refusal above is [handleEditClick]'s. *)
Example isCellEditable_ignores_blocked :
  isCellEditable false (Some adminUser) (Some openSeason)
    (exTask "6" "F" [] "blocked") = Returns true
  ∧ isCellEditable false (Some salesUser) (Some openSeason)
      (exTask "6" "F" [] "blocked") = Returns true.
Proof. split; reflexivity. Qed.

(** C5, at the input where the code parts from it.  The task "F" is
    blocked.  [handleEditClick] refuses it with the "Blocked tasks cannot
    be edited." warning, but [isCellEditable] has no rule for blocked
    tasks: for an Admin in an open season it returns true, the remarks
    editor offers Save, and saving sends the new remarks to persistence
    and raises no refusal.  The same holds for a user of a responsible
    department. *)
Theorem blocked_task_remarks_edit_allowed :
  handleEditClick (Some adminUser) (Some exList) "6"
    (Some (exTask "6" "F" [] "blocked")) idleState
  = setAlertInfo (warning msgBlocked) idleState
  ∧ isCellEditable false (Some adminUser) (Some openSeason)
      (exTask "6" "F" [] "blocked") = Returns true
  ∧ remarksSaveClick false (Some adminUser) (Some openSeason) "s1" failingApi
      (exTask "6" "F" [] "blocked") "held by supplier"
    = Returns
        [SetIsUpdating true;
         UpdateTaskInSeason "s1" "6"
           {| p_remarks := Some (Some "held by supplier");
              p_actualCompletion := None; p_status := None |};
         SetAlertInfo (error "Network Error");
         SetIsUpdating false]
  ∧ (∀ api : string -> string -> ApiPayload -> ApiReply,
       ∃ effects,
         remarksSaveClick false (Some adminUser) (Some openSeason) "s1" api
           (exTask "6" "F" [] "blocked") "held by supplier" = Returns effects
         ∧ callsPersistence effects = true
         ∧ ¬ In (SetAlertInfo (warning msgBlocked)) effects)
  ∧ (∀ api : string -> string -> ApiPayload -> ApiReply,
       ∃ effects,
         remarksSaveClick false (Some salesUser) (Some openSeason) "s1" api
           (exTask "6" "F" [] "blocked") "held by supplier" = Returns effects
         ∧ callsPersistence effects = true).
Proof.
  split; [reflexivity |]. split; [reflexivity |]. split; [reflexivity |].
  split; intros api; eexists; (split; [reflexivity |]);
    unfold handleRemarkUpdate;
    destruct (api _ _ _) as [[[season [tasks |] m] |] | err]; simpl;
    try (split; [reflexivity |]); try reflexivity;
    intros H; repeat (destruct H as [H | H]; [discriminate H |]); exact H.
Qed.

Lemma predecessorsDone_false (tasksMap : gmap string Task) (codes : list string) :
  predecessorsDone tasksMap codes = false ↔
  ∃ c p, c ∈ codes ∧ tasksMap !! c = Some p ∧ status p ≠ "completed".
Proof.
  induction codes as [| c codes IH]; simpl.
  - split; [discriminate | intros (c & p & Hin & _); inversion Hin].
  - destruct (tasksMap !! c) as [p |] eqn:E.
    + destruct (decide (status p = "completed")) as [Hc | Hc].
      * rewrite bool_decide_eq_true_2 by done. simpl. rewrite IH.
        split.
        -- intros (c' & p' & Hin & Hl & Hs). exists c', p'.
           split; [by right | done].
        -- intros (c' & p' & Hin & Hl & Hs). exists c', p'.
           apply elem_of_cons in Hin as [-> | Hin]; [congruence | done].
      * rewrite bool_decide_eq_false_2 by done. simpl.
        split; [intros _ | done]. exists c, p. split; [by left | done].
    + rewrite IH. split.
      * intros (c' & p' & Hin & Hl & Hs). exists c', p'. split; [by right | done].
      * intros (c' & p' & Hin & Hl & Hs). exists c', p'.
        apply elem_of_cons in Hin as [-> | Hin]; [congruence | done].
Qed.

(** A pending task is turned away with the "not yet actionable" warning
    exactly when one of its codes looks up to a task that is not
    completed. *)
Lemma pending_edit_denied_iff (currentUser : option User) (taskList : list Task)
    (id : string) (task : Task) (st : PageState) :
  status task = "pending" →
  handleEditClick currentUser (Some taskList) id (Some task) st
    = setAlertInfo (warning msgPredecessors) st
  ↔ ∃ c p, c ∈ preds task ∧ tasksByOrder taskList !! c = Some p
           ∧ status p ≠ "completed".
Proof.
  intros Hst. rewrite <- predecessorsDone_false.
  unfold handleEditClick. rewrite Hst.
  replace (JsString.toLowerCase "pending") with "pending" by reflexivity.
  rewrite (bool_decide_eq_false_2 ("pending" = "completed")) by discriminate.
  rewrite (bool_decide_eq_false_2 ("pending" = "blocked")) by discriminate.
  rewrite (bool_decide_eq_true_2 ("pending" = "pending")) by reflexivity.
  cbn [andb]. destruct (predecessorsDone _ _); cbn [negb]; [| done].
  split; [| done].
  destruct (_ && _); intros H; apply (f_equal alertInfo) in H; discriminate.
Qed.

(** C6, at the input where the code parts from it.  The pending task
    "E" names the code "Q", which no task of the list carries, so it is
    not actionable; [handleEditClick] skips the unknown code and puts
    the row into edit mode instead of raising the "not yet actionable"
    warning. *)
Theorem dangling_predecessor_edit_allowed :
  isTaskActionable (Some (exTask "5" "E" ["Q"] "pending")) (Some exList) = false
  ∧ handleEditClick (Some adminUser) (Some exList) "5"
      (Some (exTask "5" "E" ["Q"] "pending")) idleState
    = editing "5" idleState
  ∧ editActionClick false (Some adminUser) (Some openSeason) (Some exList)
      (exTask "5" "E" ["Q"] "pending") idleState
    = Returns (editing "5" idleState).
Proof. repeat split. Qed.

(** ** The edit reducer *)

(** [isBefore(_, 'day')] holds exactly when the first instant falls on
    an earlier calendar day than the second. *)
Lemma isBefore_day_dayOf (utcOffset a b : Z) :
  Moment.isBefore_day utcOffset a b = true ↔
  Moment.dayOf utcOffset a < Moment.dayOf utcOffset b.
Proof.
  unfold Moment.isBefore_day, Moment.endOf_day, Moment.startOf_day, Moment.dayOf,
    Moment.MS_PER_DAY.
  rewrite Z.ltb_lt.
  pose proof (Z.div_mod (a + utcOffset) 86400000 ltac:(lia)).
  pose proof (Z.div_mod (b + utcOffset) 86400000 ltac:(lia)).
  pose proof (Z.mod_pos_bound (a + utcOffset) 86400000 ltac:(lia)).
  pose proof (Z.mod_pos_bound (b + utcOffset) 86400000 ltac:(lia)).
  lia.
Qed.

Lemma buildPayload_changed_completion (utcOffset : Z) (newRow oldRow : Task) (d : Z) :
  actualCompletion newRow = Some d →
  actualCompletion oldRow ≠ Some d →
  completionBeforeStart utcOffset (Some d) newRow = false →
  ∃ payload, buildPayload utcOffset newRow oldRow = Some payload
             ∧ p_actualCompletion payload = Some (Some d)
             ∧ p_status payload
               = (if bool_decide (status newRow ≠ "completed")
                  then Some "completed" else None).
Proof.
  intros Hnew Hold Hok. unfold buildPayload. rewrite Hnew.
  rewrite (bool_decide_eq_true_2 (Some d ≠ actualCompletion oldRow)) by congruence.
  rewrite Hok. cbn [p_actualCompletion].
  destruct (bool_decide (status newRow ≠ "completed")) eqn:Es;
    (eexists; split; [reflexivity |]); cbn; rewrite ?Es;
    destruct (bool_decide (remarks newRow ≠ remarks oldRow)); done.
Qed.

Lemma submits_changed_completion (utcOffset : Z) (seasonId : string)
    (api : string -> string -> ApiPayload -> ApiReply) (newRow oldRow : Task) (d : Z) :
  actualCompletion newRow = Some d →
  actualCompletion oldRow ≠ Some d →
  completionBeforeStart utcOffset (Some d) newRow = false →
  ∃ payload, submits utcOffset seasonId api newRow oldRow payload
             ∧ p_actualCompletion payload = Some (Some d)
             ∧ p_status payload
               = (if bool_decide (status newRow ≠ "completed")
                  then Some "completed" else None).
Proof.
  intros Hnew Hold Hok.
  destruct (buildPayload_changed_completion utcOffset newRow oldRow d Hnew Hold Hok)
    as (payload & Hb & Hc & Hs).
  exists payload. split; [| done]. split; [exact Hb |].
  unfold handleProcessRowUpdate. rewrite Hb.
  rewrite bool_decide_eq_false_2; [reflexivity |].
  unfold payloadKeys. rewrite Hc. cbn [hasKey].
  rewrite !length_app. simpl. lia.
Qed.

Lemma buildPayload_status (utcOffset : Z) (newRow oldRow : Task) (payload : ApiPayload) :
  buildPayload utcOffset newRow oldRow = Some payload →
  (∃ d, p_actualCompletion payload = Some (Some d)) →
  status newRow ≠ "completed" →
  p_status payload = Some "completed".
Proof.
  unfold buildPayload. intros Hb (d & Hd) Hs.
  destruct (bool_decide (actualCompletion newRow ≠ actualCompletion oldRow)).
  - destruct (completionBeforeStart _ _ _); [discriminate |].
    cbn [p_actualCompletion] in Hb.
    destruct (actualCompletion newRow) as [d' |].
    + rewrite (bool_decide_eq_true_2 _ Hs) in Hb. by injection Hb as <-.
    + injection Hb as <-. discriminate.
  - destruct (bool_decide (remarks newRow ≠ remarks oldRow));
      injection Hb as <-; discriminate.
Qed.

(** C7. A changed, non-null [actualCompletion] whose day is before the
    day of [computedDates.start] is rejected with the date alert and no
    persistence call; one on the same day or a later day goes to
    persistence with the new date in the payload; and any payload that
    carries a non-null [actualCompletion] for a row whose status is not
    completed also carries [status = completed]. *)
Theorem completion_date_checked_then_status_derived (utcOffset : Z) (seasonId : string)
    (api : string -> string -> ApiPayload -> ApiReply) (newRow oldRow : Task) :
  (∀ d s, actualCompletion newRow = Some d → actualCompletion oldRow ≠ Some d →
     computedStart newRow = Some s →
     Moment.dayOf utcOffset d < Moment.dayOf utcOffset s →
     handleProcessRowUpdate utcOffset seasonId api newRow oldRow
     = ([SetAlertInfo (error msgInvalidDate)], Rejected "Invalid date"))
  ∧ (∀ d s, actualCompletion newRow = Some d → actualCompletion oldRow ≠ Some d →
     computedStart newRow = Some s →
     Moment.dayOf utcOffset s <= Moment.dayOf utcOffset d →
     ∃ payload, submits utcOffset seasonId api newRow oldRow payload
                ∧ p_actualCompletion payload = Some (Some d))
  ∧ (∀ payload d, buildPayload utcOffset newRow oldRow = Some payload →
     p_actualCompletion payload = Some (Some d) →
     status newRow ≠ "completed" →
     p_status payload = Some "completed").
Proof.
  split; [| split].
  - intros d s Hnew Hold Hstart Hday.
    unfold handleProcessRowUpdate, buildPayload. rewrite Hnew.
    rewrite (bool_decide_eq_true_2 (Some d ≠ actualCompletion oldRow)) by congruence.
    unfold completionBeforeStart. rewrite Hstart.
    apply isBefore_day_dayOf in Hday. rewrite Hday. reflexivity.
  - intros d s Hnew Hold Hstart Hday.
    destruct (submits_changed_completion utcOffset seasonId api newRow oldRow d)
      as (payload & Hsub & Hc & _); [done | done | | by exists payload].
    unfold completionBeforeStart. rewrite Hstart.
    apply not_true_is_false. rewrite isBefore_day_dayOf. lia.
  - intros payload d Hb Hd Hs. eapply buildPayload_status; eauto.
Qed.

Lemma completion_date_checked_then_status_derived_witness :
  handleProcessRowUpdate 0 "s1" failingApi
    (plannedTask (Some (noon 10)) (Some (noon 9)) "pending")
    (plannedTask (Some (noon 10)) None "pending")
  = ([SetAlertInfo (error msgInvalidDate)], Rejected "Invalid date")
  ∧ (∃ payload,
       submits 0 "s1" failingApi
         (plannedTask (Some (noon 10)) (Some (noon 10 - 3600000)) "pending")
         (plannedTask (Some (noon 10)) None "pending") payload
       ∧ p_actualCompletion payload = Some (Some (noon 10 - 3600000)))
  ∧ p_status
      {| p_remarks := None; p_actualCompletion := Some (Some (noon 12));
         p_status := Some "completed" |}
    = Some "completed".
Proof.
  split; [| split].
  - destruct (completion_date_checked_then_status_derived 0 "s1" failingApi
                (plannedTask (Some (noon 10)) (Some (noon 9)) "pending")
                (plannedTask (Some (noon 10)) None "pending")) as (Hrej & _ & _).
    apply (Hrej (noon 9) (noon 10)); [reflexivity | discriminate | reflexivity |].
    vm_compute. reflexivity.
  - destruct (completion_date_checked_then_status_derived 0 "s1" failingApi
                (plannedTask (Some (noon 10)) (Some (noon 10 - 3600000)) "pending")
                (plannedTask (Some (noon 10)) None "pending")) as (_ & Hacc & _).
    apply (Hacc (noon 10 - 3600000) (noon 10));
      [reflexivity | discriminate | reflexivity |].
    vm_compute. discriminate.
  - destruct (completion_date_checked_then_status_derived 0 "s1" failingApi
                (plannedTask (Some (noon 10)) (Some (noon 12)) "pending")
                (plannedTask (Some (noon 10)) None "pending")) as (_ & _ & Hst).
    apply (Hst _ (noon 12)); [reflexivity | reflexivity | discriminate].
Defined.

(** C9. When the new row has the remarks and the completion date of the
    old one, [handleProcessRowUpdate] resolves with the old row and does
    nothing else: no persistence call, no alert. *)
Theorem unchanged_edit_is_noop (utcOffset : Z) (seasonId : string)
    (api : string -> string -> ApiPayload -> ApiReply) (newRow oldRow : Task) :
  remarks newRow = remarks oldRow →
  actualCompletion newRow = actualCompletion oldRow →
  handleProcessRowUpdate utcOffset seasonId api newRow oldRow = ([], Resolved oldRow)
  ∧ callsPersistence (handleProcessRowUpdate utcOffset seasonId api newRow oldRow).1 = false
  ∧ reportsError (handleProcessRowUpdate utcOffset seasonId api newRow oldRow).1 = false.
Proof.
  intros Hr Hc.
  assert (handleProcessRowUpdate utcOffset seasonId api newRow oldRow
          = ([], Resolved oldRow)) as E.
  { unfold handleProcessRowUpdate, buildPayload. rewrite Hr, Hc.
    rewrite (bool_decide_eq_false_2 (remarks oldRow ≠ remarks oldRow))
      by (intros H; by apply H).
    rewrite (bool_decide_eq_false_2 (actualCompletion oldRow ≠ actualCompletion oldRow))
      by (intros H; by apply H).
    reflexivity. }
  rewrite E. done.
Qed.

Lemma unchanged_edit_is_noop_witness :
  handleProcessRowUpdate 0 "s1" failingApi
    (plannedTask (Some (noon 10)) (Some (noon 3)) "blocked")
    (plannedTask (Some (noon 10)) (Some (noon 3)) "pending")
  = ([], Resolved (plannedTask (Some (noon 10)) (Some (noon 3)) "pending")).
Proof.
  apply (unchanged_edit_is_noop 0 "s1" failingApi
           (plannedTask (Some (noon 10)) (Some (noon 3)) "blocked")
           (plannedTask (Some (noon 10)) (Some (noon 3)) "pending"));
    reflexivity.
Defined.

Lemma rejected_without_call (utcOffset : Z) (seasonId : string)
    (api : string -> string -> ApiPayload -> ApiReply) (newRow oldRow : Task)
    (message : string) :
  (handleProcessRowUpdate utcOffset seasonId api newRow oldRow).2 = Rejected message →
  callsPersistence (handleProcessRowUpdate utcOffset seasonId api newRow oldRow).1 = false →
  buildPayload utcOffset newRow oldRow = None.
Proof.
  unfold handleProcessRowUpdate.
  destruct (buildPayload utcOffset newRow oldRow) as [payload |]; [| done].
  destruct (bool_decide _); simpl; [discriminate | intros _ H; discriminate].
Qed.

Lemma buildPayload_None (utcOffset : Z) (newRow oldRow : Task) :
  buildPayload utcOffset newRow oldRow = None →
  ∃ d s, actualCompletion newRow = Some d ∧ computedStart newRow = Some s
         ∧ Moment.dayOf utcOffset d < Moment.dayOf utcOffset s.
Proof.
  unfold buildPayload.
  destruct (bool_decide (actualCompletion newRow ≠ actualCompletion oldRow));
    [| discriminate].
  unfold completionBeforeStart.
  destruct (actualCompletion newRow) as [d |]; [| discriminate].
  destruct (computedStart newRow) as [s |]; [| discriminate].
  destruct (Moment.isBefore_day utcOffset d s) eqn:E; [| discriminate].
  intros _. exists d, s. by rewrite <- isBefore_day_dayOf.
Qed.

(** C10. When [computedDates.start] is absent, every changed, non-null
    [actualCompletion] goes to persistence, whatever its date; and a run
    that is rejected without a persistence call (the date rejection) has
    a [computedDates.start], with the new date on an earlier day. *)
Theorem no_start_no_date_check (utcOffset : Z) (seasonId : string)
    (api : string -> string -> ApiPayload -> ApiReply) (newRow oldRow : Task) :
  (computedStart newRow = None →
   ∀ d, actualCompletion newRow = Some d → actualCompletion oldRow ≠ Some d →
     ∃ payload, submits utcOffset seasonId api newRow oldRow payload
                ∧ p_actualCompletion payload = Some (Some d))
  ∧ (∀ message,
       (handleProcessRowUpdate utcOffset seasonId api newRow oldRow).2 = Rejected message →
       callsPersistence (handleProcessRowUpdate utcOffset seasonId api newRow oldRow).1
         = false →
       ∃ d s, actualCompletion newRow = Some d ∧ computedStart newRow = Some s
              ∧ Moment.dayOf utcOffset d < Moment.dayOf utcOffset s).
Proof.
  split.
  - intros Hstart d Hnew Hold.
    destruct (submits_changed_completion utcOffset seasonId api newRow oldRow d)
      as (payload & Hsub & Hc & _); [done | done | | by exists payload].
    unfold completionBeforeStart. by rewrite Hstart.
  - intros message Hrej Hcall. apply (buildPayload_None utcOffset newRow oldRow).
    by apply (rejected_without_call utcOffset seasonId api newRow oldRow message).
Qed.

Lemma no_start_no_date_check_witness :
  (∃ payload,
     submits 0 "s1" failingApi
       (plannedTask None (Some (noon (-400))) "pending")
       (plannedTask None None "pending") payload
     ∧ p_actualCompletion payload = Some (Some (noon (-400))))
  ∧ (∃ d s,
       actualCompletion (plannedTask (Some (noon 10)) (Some (noon 9)) "pending") = Some d
       ∧ computedStart (plannedTask (Some (noon 10)) (Some (noon 9)) "pending") = Some s
       ∧ Moment.dayOf 0 d < Moment.dayOf 0 s).
Proof.
  split.
  - destruct (no_start_no_date_check 0 "s1" failingApi
                (plannedTask None (Some (noon (-400))) "pending")
                (plannedTask None None "pending")) as (Hacc & _).
    apply (Hacc eq_refl (noon (-400))); [reflexivity | discriminate].
  - destruct (no_start_no_date_check 0 "s1" failingApi
                (plannedTask (Some (noon 10)) (Some (noon 9)) "pending")
                (plannedTask (Some (noon 10)) None "pending")) as (_ & Hrej).
    apply (Hrej "Invalid date"); reflexivity.
Defined.

(** ** Reference timeline *)

Lemma tasksByOrder_lookup (tasks : list Task) (c : string) (p : Task) :
  tasksByOrder tasks !! c = Some p → p ∈ tasks ∧ order p = c.
Proof.
  unfold tasksByOrder. induction tasks as [| t tasks IH] using rev_ind.
  - simpl. by rewrite lookup_empty.
  - rewrite foldl_app. simpl. rewrite lookup_insert. case_decide as Hc.
    + intros [= <-]. split; [| done]. apply elem_of_app. right. by left.
    + intros H. destruct (IH H) as [Hin Ho]. split; [| done].
      apply elem_of_app. by left.
Qed.

Lemma foldr_max_init (m e : Z) (l : list Z) :
  foldr Z.max (Z.max m e) l = Z.max e (foldr Z.max m l).
Proof. induction l as [| x l IH]; simpl; lia. Qed.

Lemma maxEndDate_lower (created : Z) (ends : list Z) :
  created <= maxEndDate created ends
  ∧ Forall (fun e => e <= maxEndDate created ends) ends.
Proof.
  unfold maxEndDate. induction ends as [| e ends [IH1 IH2]]; simpl.
  - split; [lia | constructor].
  - split; [lia |]. constructor; [lia |].
    eapply Forall_impl; [exact IH2 |]. simpl. intros; lia.
Qed.

Lemma NoDup_id_inj (tasks : list Task) (t t' : Task) :
  NoDup (_id <$> tasks) → t ∈ tasks → t' ∈ tasks → _id t = _id t' → t = t'.
Proof.
  induction tasks as [| a tasks IH]; intros Hnd Ht Ht' Heq; [inversion Ht |].
  rewrite fmap_cons in Hnd. apply NoDup_cons in Hnd as [Ha Hnd].
  apply elem_of_cons in Ht as [-> | Ht]; apply elem_of_cons in Ht' as [-> | Ht'].
  - done.
  - exfalso. apply Ha. rewrite Heq. apply list_elem_of_fmap. by exists t'.
  - exfalso. apply Ha. rewrite <- Heq. apply list_elem_of_fmap. by exists t.
  - by apply IH.
Qed.

Section Resolver.
Variable tasks : list Task.
Variable created : Z.

Lemma scanPreceding_mono (tl tl' : gmap string TimelineEntry) (m : Z)
    (codes : list string) (r : Z) :
  tl ⊆ tl' →
  scanPreceding (tasksByOrder tasks) tl m codes = Some r →
  scanPreceding (tasksByOrder tasks) tl' m codes = Some r.
Proof.
  intros Hsub. revert m. induction codes as [| c codes IH]; intros m; simpl; [done |].
  destruct ((tasksByOrder tasks) !! c) as [p |]; [| done].
  destruct (tl !! _id p) as [e |] eqn:E; [| done].
  rewrite (lookup_weaken _ _ _ _ E Hsub). apply IH.
Qed.

Lemma scanPreceding_Some (tl : gmap string TimelineEntry) (m : Z)
    (codes : list string) (r : Z) :
  scanPreceding (tasksByOrder tasks) tl m codes = Some r →
  ∃ es, Forall2 (resolvedAs tasks tl) codes es ∧ r = maxEndDate m (tl_end <$> es).
Proof.
  revert m. induction codes as [| c codes IH]; intros m; simpl.
  - intros [= <-]. exists []. split; [constructor | done].
  - destruct ((tasksByOrder tasks) !! c) as [p |] eqn:Ep; [| done].
    destruct (tl !! _id p) as [e |] eqn:Ee; [| done].
    intros H. apply IH in H as (es & Hall & ->).
    exists (e :: es). split.
    + constructor; [| done]. by exists p.
    + unfold maxEndDate, Moment.isAfter. simpl.
      destruct (Z.ltb_spec m (tl_end e)).
      * replace (tl_end e) with (Z.max m (tl_end e)) at 1 by lia.
        apply foldr_max_init.
      * replace m with (Z.max m (tl_end e)) at 1 by lia.
        apply foldr_max_init.
Qed.

Lemma scanPreceding_resolved (tl : gmap string TimelineEntry) (m : Z)
    (codes : list string) (r : Z) :
  scanPreceding (tasksByOrder tasks) tl m codes = Some r →
  ∀ c, c ∈ codes → ∃ e, resolvedAs tasks tl c e.
Proof.
  revert m. induction codes as [| c0 codes IH]; intros m; simpl.
  - intros _ c Hin. inversion Hin.
  - destruct (tasksByOrder tasks !! c0) as [p |] eqn:Ep; [| done].
    destruct (tl !! _id p) as [e |] eqn:Ee; [| done].
    intros Hr c Hin. apply elem_of_cons in Hin as [-> | Hin].
    + exists e, p. done.
    + by apply (IH _ Hr).
Qed.

Lemma scanPreceding_is_Some (tl : gmap string TimelineEntry) (m : Z)
    (codes : list string) :
  (∀ c, c ∈ codes → ∃ e, resolvedAs tasks tl c e) →
  is_Some (scanPreceding (tasksByOrder tasks) tl m codes).
Proof.
  revert m. induction codes as [| c codes IH]; intros m Hall; simpl; [by eexists |].
  destruct (Hall c) as (e & p & Hp & He); [by left |].
  rewrite Hp, He. apply IH.
  intros c' Hin. apply Hall. by right.
Qed.

Lemma scanPreceding_None (tl : gmap string TimelineEntry) (m : Z)
    (codes : list string) :
  scanPreceding (tasksByOrder tasks) tl m codes = None →
  ∃ c, c ∈ codes ∧
       ((tasksByOrder tasks) !! c = None ∨ ∃ p, (tasksByOrder tasks) !! c = Some p ∧ tl !! _id p = None).
Proof.
  revert m. induction codes as [| c codes IH]; intros m; simpl; [done |].
  destruct ((tasksByOrder tasks) !! c) as [p |] eqn:Ep.
  - destruct (tl !! _id p) as [e |] eqn:Ee.
    + intros H. apply IH in H as (c' & Hin & Hc'). exists c'. split; [by right | done].
    + intros _. exists c. split; [by left |]. right. by exists p.
  - intros _. exists c. split; [by left | by left].
Qed.

Lemma derived_mono (tl tl' : gmap string TimelineEntry) (t : Task) (e : TimelineEntry) :
  tl ⊆ tl' → derived tasks created tl t e → derived tasks created tl' t e.
Proof.
  intros Hsub (r & Hr & ->). exists r. split; [| done].
  by apply (scanPreceding_mono tl tl').
Qed.

(** One task of the [forEach]. *)
Lemma forEachTask_step (acc : gmap string TimelineEntry * Z) (t : Task) :
  t ∈ tasks →
  let acc' := forEachTask (tasksByOrder tasks) created acc t in
  acc.1 ⊆ acc'.1
  ∧ (Inv tasks created acc.1 → Inv tasks created acc'.1)
  ∧ Z.of_nat (size acc'.1) - Z.of_nat (size acc.1) = acc'.2 - acc.2
  ∧ acc.2 <= acc'.2
  ∧ (acc'.2 = acc.2 → acc'.1 = acc.1 ∧ stuck tasks created acc.1 t).
Proof.
  intros Hin. unfold forEachTask. destruct acc as [tl k]. simpl.
  destruct (tl !! _id t) as [e0 |] eqn:E0.
  { simpl. split; [done |]. split; [done |]. split; [lia |]. split; [lia |].
    intros _. split; [done |]. unfold stuck. simpl. congruence. }
  destruct (scanPreceding (tasksByOrder tasks) tl created (preds t)) as [r |] eqn:Er.
  2:{ simpl. split; [done |]. split; [done |]. split; [lia |]. split; [lia |].
      intros _. split; [done |]. by intros _. }
  simpl. split; [by apply insert_subseteq |]. split.
  { intros HI id e. rewrite lookup_insert. case_decide as Hid.
    - intros [= <-]. exists t. split; [done |]. split; [done |]. split.
      + apply (derived_mono tl); [by apply insert_subseteq |]. by exists r.
      + intros Hnd. constructor.
        * intros c Hc.
          destruct (scanPreceding_resolved tl created (preds t) r Er c Hc)
            as (e' & p & Hp & _).
          by exists p.
        * intros p (c & Hc & Hp).
          destruct (scanPreceding_resolved tl created (preds t) r Er c Hc)
            as (e' & p' & Hp' & He').
          assert (p' = p) as -> by congruence.
          destruct (HI (_id p) e' He') as (tp & Htp & Hidp & _ & Hres).
          destruct (tasksByOrder_lookup tasks c p Hp) as [Hpin _].
          rewrite <- (NoDup_id_inj tasks tp p Hnd Htp Hpin Hidp). by apply Hres.
    - intros Hl. destruct (HI id e Hl) as (t' & Hin' & Hid' & Hd & Hres).
      exists t'. split; [done |]. split; [done |]. split; [| done].
      apply (derived_mono tl); [by apply insert_subseteq | done]. }
  rewrite map_size_insert_None by done. split; [lia |]. split; [lia |]. lia.
Qed.

Lemma foldl_forEachTask (l : list Task) (acc : gmap string TimelineEntry * Z) :
  (∀ t, t ∈ l → t ∈ tasks) →
  let acc' := foldl (forEachTask (tasksByOrder tasks) created) acc l in
  acc.1 ⊆ acc'.1
  ∧ (Inv tasks created acc.1 → Inv tasks created acc'.1)
  ∧ Z.of_nat (size acc'.1) - Z.of_nat (size acc.1) = acc'.2 - acc.2
  ∧ acc.2 <= acc'.2
  ∧ (acc'.2 = acc.2 → acc'.1 = acc.1 ∧ ∀ t, t ∈ l → stuck tasks created acc.1 t).
Proof.
  revert acc. induction l as [| t l IH]; intros acc Hl; simpl.
  { split; [done |]. split; [done |]. split; [lia |]. split; [lia |].
    intros _. split; [done |]. intros t Hin. inversion Hin. }
  destruct (forEachTask_step acc t) as (S1 & I1 & Z1 & K1 & E1); [apply Hl; by left |].
  destruct (IH (forEachTask (tasksByOrder tasks) created acc t)) as (S2 & I2 & Z2 & K2 & E2).
  { intros t' Hin. apply Hl. by right. }
  simpl in *. split; [by etrans |]. split; [tauto |]. split; [lia |]. split; [lia |].
  intros Heq.
  destruct E1 as [E1 St]; [lia |]. destruct E2 as [E2 Sl]; [lia |].
  split; [congruence |]. intros t' Hin.
  apply elem_of_cons in Hin as [-> | Hin]; [done |]. rewrite <- E1. by apply Sl.
Qed.

(** One pass over the sorted tasks. *)
Lemma runPass_spec (tl : gmap string TimelineEntry) :
  let pass := runPass (sortTasks tasks) (tasksByOrder tasks) created tl in
  tl ⊆ pass.1
  ∧ (Inv tasks created tl → Inv tasks created pass.1)
  ∧ Z.of_nat (size pass.1) = Z.of_nat (size tl) + pass.2
  ∧ 0 <= pass.2
  ∧ (pass.2 = 0 → pass.1 = tl ∧ ∀ t, t ∈ tasks → stuck tasks created tl t).
Proof.
  unfold runPass.
  destruct (foldl_forEachTask (sortTasks tasks) (tl, 0)) as (S1 & I1 & Z1 & K1 & E1).
  { intros t. by rewrite elem_of_sortTasks. }
  simpl in *. split; [done |]. split; [done |]. split; [lia |]. split; [lia |].
  intros H0. destruct (E1 H0) as [E S]. split; [done |].
  intros t Hin. apply S. by rewrite elem_of_sortTasks.
Qed.

End Resolver.

(** *** The loop *)

Lemma size_list_to_set_le (l : list string) :
  (size (list_to_set l : gset string) ≤ length l)%nat.
Proof.
  induction l as [| x l IH].
  - rewrite list_to_set_nil, size_empty. done.
  - rewrite list_to_set_cons. cbn [length].
    destruct (decide (x ∈ (list_to_set l : gset string))) as [Hin | Hin].
    + rewrite (subseteq_union_1_L {[x]} (list_to_set l : gset string))
        by (by apply singleton_subseteq_l).
      lia.
    + rewrite size_union by (by apply disjoint_singleton_l).
      rewrite size_singleton. lia.
Qed.

Lemma Inv_all_present (tasks : list Task) (created : Z)
    (tl : gmap string TimelineEntry) :
  Inv tasks created tl → (length tasks ≤ size tl)%nat →
  ∀ t, t ∈ tasks → is_Some (tl !! _id t).
Proof.
  intros HI Hsize t Hin. apply elem_of_dom.
  assert (dom tl ⊆ (list_to_set (_id <$> tasks) : gset string)) as Hsub.
  { intros id Hid. apply elem_of_dom in Hid as [e He].
    destruct (HI id e He) as (t' & Hin' & <- & _).
    apply elem_of_list_to_set, list_elem_of_fmap. by exists t'. }
  assert (dom tl = (list_to_set (_id <$> tasks) : gset string)) as ->.
  { apply set_subseteq_size_eq; [done |]. rewrite size_dom.
    etrans; [apply size_list_to_set_le |]. by rewrite length_fmap. }
  apply elem_of_list_to_set, list_elem_of_fmap. by exists t.
Qed.

Lemma whileLoop_fuel_mono (fuel fuel' : nat) (MAX : Z) (sorted : list Task)
    (byOrder : gmap string Task) (created : Z) (st r : LoopState) :
  (fuel ≤ fuel')%nat →
  whileLoop fuel MAX sorted byOrder created st = Some r →
  whileLoop fuel' MAX sorted byOrder created st = Some r.
Proof.
  revert fuel' st. induction fuel as [| fuel IH]; intros fuel' st Hle; [done |].
  destruct fuel' as [| fuel']; [lia |]. simpl.
  destruct (_ && _); [| done]. destruct (_ && _); [done |].
  apply IH. lia.
Qed.

Lemma whileLoop_spec (tasks : list Task) (created : Z) (fuel : nat) (st : LoopState) :
  LoopInv tasks created st →
  iterations st <= Z.of_nat (length tasks) + 5 →
  (Z.to_nat (Z.of_nat (length tasks) + 5 - iterations st) < fuel)%nat →
  ∃ st', whileLoop fuel (Z.of_nat (length tasks) + 5) (sortTasks tasks)
           (tasksByOrder tasks) created st = Some st'
         ∧ Final tasks created st'.
Proof.
  revert st. induction fuel as [| fuel IH]; intros st (HI & Hcount & Hit) Hmax Hfuel;
    [lia |].
  simpl.
  destruct (runPass_spec tasks created (ls_timeline st)) as (Hsub & HI' & Hsize & Hk & Hzero).
  set (pass := runPass (sortTasks tasks) (tasksByOrder tasks) created (ls_timeline st)) in *.
  destruct (Z.ltb_spec 0 (tasksToProcess st)) as [Hpos | Hdone]; simpl.
  - destruct (Z.ltb_spec (iterations st) (Z.of_nat (length tasks) + 5)) as [Hlt | Hge].
    + destruct (Z.eqb_spec pass.2 0) as [H0 | Hn0]; simpl.
      * destruct (Z.ltb_spec 0 (tasksToProcess st - pass.2)) as [Hleft | Hnone]; [| lia].
        eexists. split; [reflexivity |].
        destruct (Hzero H0) as [Heq Hstuck].
        split; [by apply HI' |]. simpl. split; [by rewrite Heq | lia].
      * apply IH.
        -- split; [by apply HI' |]. simpl. split; lia.
        -- simpl. lia.
        -- simpl. lia.
    + lia.
  - eexists. split; [reflexivity |]. split; [done |]. split; [| lia].
    intros t Hin Hnone.
    destruct (Inv_all_present tasks created (ls_timeline st) HI ltac:(lia) t Hin)
      as [e He].
    congruence.
Qed.

(** The resolver returns, the state it returns satisfies [Final], and
    more fuel does not change what it returns. *)
Lemma calculateReferenceTimeline_run_Final (tasks : list Task) (created : Z) :
  ∃ st, calculateReferenceTimeline_run tasks created = Some st
        ∧ Final tasks created st
        ∧ ∀ fuel, (S (length tasks + 5) ≤ fuel)%nat →
            calculateReferenceTimeline_fuel fuel tasks created = Some st.
Proof.
  unfold calculateReferenceTimeline_run, calculateReferenceTimeline_fuel.
  destruct tasks as [| t0 tasks0] eqn:E.
  - eexists. split; [reflexivity |]. split; [| done].
    split; [| split; [| simpl; lia]].
    + intros id e. simpl. by rewrite lookup_empty.
    + intros t Hin. inversion Hin.
  - rewrite <- E. cbv zeta. rewrite length_sortTasks.
    destruct (whileLoop_spec tasks created (S (length tasks + 5))
                {| ls_timeline := ∅; tasksToProcess := Z.of_nat (length tasks);
                   iterations := 0 |}) as (st & Hrun & Hfin).
    + split; [| simpl; rewrite map_size_empty; lia].
      intros id e. simpl. by rewrite lookup_empty.
    + simpl. lia.
    + simpl. lia.
    + exists st. split; [done |]. split; [done |].
      intros fuel Hfuel. by apply (whileLoop_fuel_mono (S (length tasks + 5))).
Qed.

(** *** Cycles, dangling codes and what the resolver leaves out *)

Section Graph_facts.
Variable tasks : list Task.

Lemma Resolvable_edge (t p : Task) :
  Resolvable tasks t → edge tasks t p → Resolvable tasks p.
Proof. intros Hr He. inversion Hr as [t' _ Hall]; subst. by apply Hall. Qed.

Lemma Resolvable_rtc (t u : Task) :
  rtc (edge tasks) t u → Resolvable tasks t → Resolvable tasks u.
Proof.
  induction 1 as [| t p u He _ IH]; [done |].
  intros Hr. apply IH. by apply (Resolvable_edge t).
Qed.

Lemma Resolvable_not_dangling (t : Task) :
  Resolvable tasks t → ¬ dangling tasks t.
Proof.
  intros Hr (c & Hc & Hnone). inversion Hr as [t' Hsome _]; subst.
  destruct (Hsome c Hc) as [p Hp]. congruence.
Qed.

Lemma tc_first_step (t u : Task) :
  tc (edge tasks) t u → ∃ p, edge tasks t p ∧ rtc (edge tasks) p u.
Proof.
  intros Htc. inversion Htc as [? ? He | ? p ? He Hrest]; subst.
  - exists u. split; [done | apply rtc_refl].
  - exists p. split; [done | by apply tc_rtc].
Qed.

Lemma Resolvable_not_on_cycle (t : Task) :
  Resolvable tasks t → ¬ on_cycle tasks t.
Proof.
  induction 1 as [t _ _ IH]. intros Hcyc.
  destruct (tc_first_step t t Hcyc) as (p & He & Hback).
  apply (IH p He). unfold on_cycle.
  eapply tc_rtc_l; [exact Hback | by apply tc_once].
Qed.

Lemma Resolvable_not_unresolvable (t : Task) :
  Resolvable tasks t → ¬ unresolvable tasks t.
Proof.
  intros Hr (u & Hreach & [Hcyc | Hdang]).
  - by apply (Resolvable_not_on_cycle u); [apply (Resolvable_rtc t) |].
  - by apply (Resolvable_not_dangling u); [apply (Resolvable_rtc t) |].
Qed.

Variable created : Z.
Variable tl : gmap string TimelineEntry.
Hypothesis tl_stuck : ∀ t, t ∈ tasks → stuck tasks created tl t.

(** A task left without an entry names a dangling code or has a
    predecessor left without an entry. *)
Lemma missing_step (u : Task) :
  u ∈ tasks → tl !! _id u = None →
  dangling tasks u ∨ ∃ p, edge tasks u p ∧ p ∈ tasks ∧ tl !! _id p = None.
Proof.
  intros Hin Hnone.
  destruct (scanPreceding_None tasks tl created (preds u) (tl_stuck u Hin Hnone))
    as (c & Hc & [Hd | (p & Hp & Hpn)]).
  - left. by exists c.
  - right. exists p. split; [by exists c |]. split; [| done].
    by destruct (tasksByOrder_lookup tasks c p Hp).
Qed.

(** Following predecessors left without an entry from [t], through the
    distinct tasks [visited] up to [u], ends in a dangling code or comes
    back to a task already met. *)
Lemma missing_chase (t : Task) (n : nat) :
  ∀ (visited : list Task) (u : Task),
    (length tasks - length visited ≤ n)%nat →
    NoDup (u :: visited) →
    (∀ v, v ∈ u :: visited → v ∈ tasks) →
    (∀ v, v ∈ visited → tc (edge tasks) v u) →
    rtc (edge tasks) t u →
    tl !! _id u = None →
    unresolvable tasks t.
Proof.
  induction n as [| n IH]; intros visited u Hn Hnd Hsub Hreach Htu Hnone.
  - pose proof (submseteq_length _ _ (NoDup_submseteq _ _ Hnd Hsub)) as Hlen.
    simpl in Hlen. lia.
  - pose proof (submseteq_length _ _ (NoDup_submseteq _ _ Hnd Hsub)) as Hlen.
    simpl in Hlen.
    destruct (missing_step u) as [Hd | (p & He & Hp & Hpn)];
      [apply Hsub; by left | done | |].
    { exists u. split; [done | by right]. }
    destruct (decide (p ∈ u :: visited)) as [Hmet | Hnew].
    + exists p. split; [by eapply rtc_r |]. left. unfold on_cycle.
      apply elem_of_cons in Hmet as [-> | Hmet]; [by apply tc_once |].
      eapply tc_r; [by apply Hreach | done].
    + apply (IH (u :: visited) p).
      * simpl. lia.
      * by apply NoDup_cons.
      * intros v Hv. apply elem_of_cons in Hv as [-> | Hv]; [done | by apply Hsub].
      * intros v Hv. apply elem_of_cons in Hv as [-> | Hv]; [by apply tc_once |].
        eapply tc_r; [by apply Hreach | done].
      * by eapply rtc_r.
      * done.
Qed.

Lemma missing_unresolvable (t : Task) :
  t ∈ tasks → tl !! _id t = None → unresolvable tasks t.
Proof.
  intros Hin Hnone. apply (missing_chase t (length tasks) [] t).
  - simpl. lia.
  - apply NoDup_singleton.
  - intros v Hv. apply list_elem_of_singleton in Hv. by subst.
  - intros v Hv. inversion Hv.
  - apply rtc_refl.
  - done.
Qed.

End Graph_facts.

Lemma no_preds_not_unresolvable (tasks : list Task) (t : Task) :
  preds t = [] → ¬ unresolvable tasks t.
Proof.
  intros Hnil. apply Resolvable_not_unresolvable. constructor.
  - intros c Hc. rewrite Hnil in Hc. inversion Hc.
  - intros p (c & Hc & _). rewrite Hnil in Hc. inversion Hc.
Qed.

(** *** What the resolver returns *)

(** C2. The resolver returns after at most [taskCount + 5] passes, with
    any larger fuel giving the same state; when identifiers are unique,
    every task that is on a precedence cycle, names a code that no task
    carries, or depends on such a task through any number of edges, has
    no entry in the map; and every task that does not has one. *)
Theorem cycles_and_dangling_codes_left_out (tasks : list Task) (created : Z) :
  ∃ st, calculateReferenceTimeline_run tasks created = Some st
    ∧ calculateReferenceTimeline tasks created = Some (ls_timeline st)
    ∧ (∀ fuel, (S (length tasks + 5) ≤ fuel)%nat →
         calculateReferenceTimeline_fuel fuel tasks created = Some st)
    ∧ 0 <= iterations st <= Z.of_nat (length tasks) + 5
    ∧ (NoDup (_id <$> tasks) →
       ∀ t, t ∈ tasks → unresolvable tasks t → ls_timeline st !! _id t = None)
    ∧ (∀ t, t ∈ tasks → ¬ unresolvable tasks t → is_Some (ls_timeline st !! _id t)).
Proof.
  destruct (calculateReferenceTimeline_run_Final tasks created)
    as (st & Hrun & (HI & Hstuck & Hit) & Hfuel).
  exists st. split; [done |]. split.
  { unfold calculateReferenceTimeline. by rewrite Hrun. }
  split; [done |]. split; [done |]. split.
  - intros Hnd t Hin Hun.
    destruct (ls_timeline st !! _id t) as [e |] eqn:E; [| done].
    destruct (HI (_id t) e E) as (t' & Hin' & Hid & _ & Hres).
    assert (t' = t) as -> by by apply (NoDup_id_inj tasks).
    exfalso. by apply (Resolvable_not_unresolvable tasks t); [apply Hres |].
  - intros t Hin Hok.
    destruct (ls_timeline st !! _id t) as [e |] eqn:E; [by eexists |].
    exfalso. apply Hok.
    by apply (missing_unresolvable tasks created (ls_timeline st)).
Qed.

Lemma plan_NoDup : NoDup (_id <$> plan).
Proof. apply (bool_decide_unpack _). vm_compute. exact I. Defined.

Lemma cycles_and_dangling_codes_left_out_witness :
  NoDup (_id <$> plan)
  ∧ ∃ st, calculateReferenceTimeline_run plan jan1 = Some st
      ∧ iterations st <= 12
      ∧ ls_timeline st !! "c" = None
      ∧ ls_timeline st !! "f" = None
      ∧ ls_timeline st !! "e" = None
      ∧ is_Some (ls_timeline st !! "a").
Proof.
  split; [exact plan_NoDup |].
  destruct (cycles_and_dangling_codes_left_out plan jan1)
    as (st & Hrun & _ & _ & Hit & Hout & Hin).
  assert (edge plan (planTask "c" "C" ["D"] 1) (planTask "d" "D" ["C"] 1)) as Hcd.
  { exists "D". split; [by apply list_elem_of_singleton | reflexivity]. }
  assert (edge plan (planTask "d" "D" ["C"] 1) (planTask "c" "C" ["D"] 1)) as Hdc.
  { exists "C". split; [by apply list_elem_of_singleton | reflexivity]. }
  assert (edge plan (planTask "f" "F" ["C"] 1) (planTask "c" "C" ["D"] 1)) as Hfc.
  { exists "C". split; [by apply list_elem_of_singleton | reflexivity]. }
  assert (on_cycle plan (planTask "c" "C" ["D"] 1)) as Hcyc.
  { eapply tc_l; [exact Hcd | by apply tc_once]. }
  exists st. split; [done |]. split; [simpl in Hit; lia |].
  split; [| split; [| split]].
  - apply (Hout plan_NoDup (planTask "c" "C" ["D"] 1)).
    + unfold plan. do 4 right. by left.
    + exists (planTask "c" "C" ["D"] 1). split; [apply rtc_refl | by left].
  - apply (Hout plan_NoDup (planTask "f" "F" ["C"] 1)).
    + unfold plan. do 1 right. by left.
    + exists (planTask "c" "C" ["D"] 1). split; [by apply rtc_once | by left].
  - apply (Hout plan_NoDup (planTask "e" "E" ["Q"] 1)).
    + unfold plan. do 2 right. by left.
    + exists (planTask "e" "E" ["Q"] 1). split; [apply rtc_refl |]. right.
      exists "Q". split; [by apply list_elem_of_singleton | reflexivity].
  - apply (Hin (planTask "a" "A" [] 5)).
    + unfold plan. do 6 right. by left.
    + by apply no_preds_not_unresolvable.
Defined.

(** C1. When identifiers are unique, the resolver returns a map in which
    the entry of a task starts at the maximum of the season's creation
    date and the end dates that its codes' tasks have in the map, and
    ends [leadTime] days after its start; a task without predecessors
    has the entry that starts at the creation date. *)
Theorem timeline_entry_is_max_plus_lead (tasks : list Task) (created : Z) :
  NoDup (_id <$> tasks) →
  ∃ tl, calculateReferenceTimeline tasks created = Some tl
    ∧ (∀ t e, t ∈ tasks → tl !! _id t = Some e →
         ∃ es, Forall2 (resolvedAs tasks tl) (preds t) es
               ∧ tl_start e = maxEndDate created (tl_end <$> es)
               ∧ tl_end e = Moment.add_days (tl_start e) (leadTime t))
    ∧ (∀ t, t ∈ tasks → preds t = [] →
         tl !! _id t
         = Some {| tl_start := created;
                   tl_end := Moment.add_days created (leadTime t) |}).
Proof.
  intros Hnd.
  destruct (calculateReferenceTimeline_run_Final tasks created)
    as (st & Hrun & (HI & Hstuck & Hit) & _).
  exists (ls_timeline st). split.
  { unfold calculateReferenceTimeline. by rewrite Hrun. }
  assert (∀ t e, t ∈ tasks → ls_timeline st !! _id t = Some e →
            derived tasks created (ls_timeline st) t e) as Hder.
  { intros t e Hin He. destruct (HI (_id t) e He) as (t' & Hin' & Hid & Hd & _).
    by rewrite <- (NoDup_id_inj tasks t' t Hnd Hin' Hin Hid). }
  split.
  - intros t e Hin He. destruct (Hder t e Hin He) as (r & Hr & ->).
    destruct (scanPreceding_Some tasks (ls_timeline st) created (preds t) r Hr)
      as (es & Hall & ->).
    by exists es.
  - intros t Hin Hnil.
    destruct (ls_timeline st !! _id t) as [e |] eqn:E.
    + destruct (Hder t e Hin E) as (r & Hr & ->).
      rewrite Hnil in Hr. simpl in Hr. by injection Hr as <-.
    + exfalso. apply (no_preds_not_unresolvable tasks t Hnil).
      by apply (missing_unresolvable tasks created (ls_timeline st)).
Qed.

Lemma timeline_entry_is_max_plus_lead_witness :
  NoDup (_id <$> plan)
  ∧ ∃ tl, calculateReferenceTimeline plan jan1 = Some tl
      ∧ tl !! "a" = Some {| tl_start := jan 1; tl_end := jan 6 |}.
Proof.
  split; [exact plan_NoDup |].
  destruct (timeline_entry_is_max_plus_lead plan jan1 plan_NoDup)
    as (tl & Hcalc & _ & Hfree).
  exists tl. split; [done |].
  apply (Hfree (planTask "a" "A" [] 5)); [| reflexivity].
  unfold plan. do 6 right. by left.
Defined.

(** The plan run through the resolver: "A" from 1 to 6 January, "B"
    from 6 to 9, "G" from 9 to 11, all in the first pass; "C", "D", "E",
    "F" are left out by the second pass, which resolves nothing. *)
Example plan_timeline :
  calculateReferenceTimeline_run plan jan1
  = Some {| ls_timeline :=
              {[ "a" := {| tl_start := jan 1; tl_end := jan 6 |};
                 "b" := {| tl_start := jan 6; tl_end := jan 9 |};
                 "g" := {| tl_start := jan 9; tl_end := jan 11 |} ]};
            tasksToProcess := 4;
            iterations := 2 |}.
Proof. vm_compute. reflexivity. Qed.

(** * Further properties *)

(** ** Display order and the order-code index *)

Lemma localeCompare_le_iff (a b : string) :
  JsString.localeCompare a b <= 0 ↔ String.compare a b ≠ Gt.
Proof.
  unfold JsString.localeCompare. destruct (String.compare a b); split; intros; try done; lia.
Qed.

Lemma String_compare_le_trans (a b c : string) :
  String.compare a b ≠ Gt → String.compare b c ≠ Gt → String.compare a c ≠ Gt.
Proof.
  intros Hab Hbc.
  destruct (String.compare a b) eqn:Eab; [| | done].
  - apply String.compare_eq_iff in Eab. by subst.
  - destruct (String.compare b c) eqn:Ebc; [| | done].
    + apply String.compare_eq_iff in Ebc. subst. by rewrite Eab.
    + apply OrderedTypeEx.String_as_OT.cmp_lt in Eab, Ebc.
      pose proof (OrderedTypeEx.String_as_OT.lt_trans _ _ _ Eab Ebc) as Hac.
      apply OrderedTypeEx.String_as_OT.cmp_lt in Hac.
      unfold OrderedTypeEx.String_as_OT.cmp in Hac. by rewrite Hac.
Qed.

Lemma compareOrder_le_iff (a b : Task) :
  compareOrder a b <= 0 ↔
  (String.length (order a) < String.length (order b))%nat
  ∨ (String.length (order a) = String.length (order b)
     ∧ String.compare (order a) (order b) ≠ Gt).
Proof.
  unfold compareOrder.
  destruct (Nat.ltb_spec (String.length (order a)) (String.length (order b))).
  { split; [by left | lia]. }
  destruct (Nat.ltb_spec (String.length (order b)) (String.length (order a))).
  { split; [lia | intros [? | [? _]]; lia]. }
  rewrite localeCompare_le_iff. split; [intros; right; split; [lia | done] |].
  intros [? | [_ ?]]; [lia | done].
Qed.

Lemma compareOrder_trans (a b c : Task) :
  compareOrder a b <= 0 → compareOrder b c <= 0 → compareOrder a c <= 0.
Proof.
  rewrite !compareOrder_le_iff.
  intros [Hab | [Hab Cab]] [Hbc | [Hbc Cbc]]; try (left; lia).
  right. split; [lia |]. by apply (String_compare_le_trans _ (order b)).
Qed.

Lemma compareOrder_antisym (a b : Task) :
  compareOrder a b <= 0 → compareOrder b a <= 0 → order a = order b.
Proof.
  rewrite !compareOrder_le_iff.
  intros [Hab | [Hab Cab]] [Hba | [Hba Cba]]; try lia.
  rewrite String.compare_antisym in Cba.
  destruct (String.compare (order a) (order b)) eqn:E; try done.
  by apply String.compare_eq_iff.
Qed.

Lemma NoDup_order_inj (tasks : list Task) (t t' : Task) :
  NoDup (order <$> tasks) → t ∈ tasks → t' ∈ tasks → order t = order t' → t = t'.
Proof.
  induction tasks as [| a tasks IH]; intros Hnd Ht Ht' Heq; [inversion Ht |].
  rewrite fmap_cons in Hnd. apply NoDup_cons in Hnd as [Ha Hnd].
  apply elem_of_cons in Ht as [-> | Ht]; apply elem_of_cons in Ht' as [-> | Ht'].
  - done.
  - exfalso. apply Ha. rewrite Heq. apply list_elem_of_fmap. by exists t'.
  - exfalso. apply Ha. rewrite <- Heq. apply list_elem_of_fmap. by exists t.
  - by apply IH.
Qed.

Lemma sortTasks_StronglySorted (tasks : list Task) :
  StronglySorted (fun a b => compareOrder a b <= 0) (sortTasks tasks).
Proof.
  apply Sorted_StronglySorted.
  - intros a b c. apply compareOrder_trans.
  - apply sortBy_Sorted, compareOrder_total.
Qed.

(** Two ordered arrangements of the same tasks are the same list when
    no two of the tasks share an order code. *)
Lemma ordered_arrangement_unique (l1 l2 : list Task) :
  NoDup (order <$> l1) →
  StronglySorted (fun a b => compareOrder a b <= 0) l1 →
  StronglySorted (fun a b => compareOrder a b <= 0) l2 →
  l1 ≡ₚ l2 → l1 = l2.
Proof.
  revert l2. induction l1 as [| x l1 IH]; intros l2 Hnd S1 S2 Hp.
  { by apply Permutation_nil in Hp. }
  destruct l2 as [| y l2]; [by apply Permutation_sym, Permutation_nil in Hp |].
  apply StronglySorted_inv in S1 as [S1 Hx]. apply StronglySorted_inv in S2 as [S2 Hy].
  assert (x = y) as ->.
  { assert (x ∈ y :: l2) as Hxin by (rewrite <- Hp; by left).
    assert (y ∈ x :: l1) as Hyin by (rewrite Hp; by left).
    apply elem_of_cons in Hxin as [-> | Hxin]; [done |].
    apply elem_of_cons in Hyin as [-> | Hyin]; [done |].
    apply (NoDup_order_inj (x :: l1)); [done | by left | by right |].
    apply compareOrder_antisym.
    - rewrite Forall_forall in Hx. by apply Hx.
    - rewrite Forall_forall in Hy. by apply Hy. }
  f_equal. apply IH; [| done | done | by apply Permutation_cons_inv in Hp].
  rewrite fmap_cons in Hnd. by apply NoDup_cons in Hnd as [_ ?].
Qed.

Lemma sortTasks_Permutation_eq (tasks tasks' : list Task) :
  NoDup (order <$> tasks) → tasks ≡ₚ tasks' → sortTasks tasks = sortTasks tasks'.
Proof.
  intros Hnd Hp. apply ordered_arrangement_unique.
  - by rewrite <- (sortTasks_Permutation tasks).
  - apply sortTasks_StronglySorted.
  - apply sortTasks_StronglySorted.
  - by rewrite <- (sortTasks_Permutation tasks), <- (sortTasks_Permutation tasks').
Qed.

(** X1. When no two tasks share an order code, the display order does
    not depend on the order in which the tasks arrive: it is the one
    arrangement of the tasks that the comparator accepts. *)
Theorem sortTasks_arrival_order (tasks tasks' : list Task) :
  NoDup (order <$> tasks) → tasks ≡ₚ tasks' →
  sortTasks tasks = sortTasks tasks'
  ∧ ∀ l, l ≡ₚ tasks → StronglySorted (fun a b => compareOrder a b <= 0) l →
      l = sortTasks tasks.
Proof.
  intros Hnd Hp. split; [by apply sortTasks_Permutation_eq |].
  intros l Hl Hs. apply ordered_arrangement_unique.
  - by rewrite Hl.
  - done.
  - apply sortTasks_StronglySorted.
  - by rewrite Hl, <- (sortTasks_Permutation tasks).
Qed.

Lemma plan_order_NoDup : NoDup (order <$> plan).
Proof. apply (bool_decide_unpack _). vm_compute. exact I. Defined.

Lemma sortTasks_arrival_order_witness :
  sortTasks plan = sortTasks (reverse plan).
Proof.
  destruct (sortTasks_arrival_order plan (reverse plan) plan_order_NoDup) as [Heq _].
  - symmetry. apply reverse_Permutation.
  - exact Heq.
Defined.

(** X2. Sorting a list that is already in display order returns it
    unchanged, ties included; so sorting twice is sorting once. *)
Theorem sortTasks_of_ordered (tasks : list Task) :
  (Sorted (fun a b => compareOrder a b <= 0) tasks → sortTasks tasks = tasks)
  ∧ sortTasks (sortTasks tasks) = sortTasks tasks.
Proof.
  assert (∀ l, Sorted (fun a b => compareOrder a b <= 0) l → sortTasks l = l) as Hid.
  { induction 1 as [| x l Hs IH Hhd]; [done |].
    unfold sortTasks in *. simpl. rewrite IH.
    destruct Hhd as [| y l Hxy]; [done |]. simpl.
    destruct (Z.ltb_spec 0 (compareOrder x y)); [lia | done]. }
  split; [apply Hid |]. apply Hid, sortBy_Sorted, compareOrder_total.
Qed.

Lemma sortTasks_of_ordered_witness :
  sortTasks (map codeTask ["A"; "B"; "Z"; "AA"]) = map codeTask ["A"; "B"; "Z"; "AA"].
Proof.
  destruct (sortTasks_of_ordered (map codeTask ["A"; "B"; "Z"; "AA"])) as [Hsame _].
  apply Hsame. repeat constructor; vm_compute; discriminate.
Defined.

Lemma tasksByOrder_snoc (l : list Task) (t : Task) :
  tasksByOrder (l ++ [t]) = <[order t := t]> (tasksByOrder l).
Proof. unfold tasksByOrder. by rewrite foldl_app. Qed.

Lemma tasksByOrder_None (tasks : list Task) (c : string) :
  tasksByOrder tasks !! c = None ↔ ∀ t, t ∈ tasks → order t ≠ c.
Proof.
  induction tasks as [| a tasks IH] using rev_ind.
  - split; [intros _ t Hin; inversion Hin | intros _; apply lookup_empty].
  - rewrite tasksByOrder_snoc, lookup_insert_None, IH. split.
    + intros [Hall Ha] t Hin. apply elem_of_app in Hin as [Hin | Hin]; [by apply Hall |].
      apply list_elem_of_singleton in Hin. by subst.
    + intros Hall. split.
      * intros t Hin. apply Hall, elem_of_app. by left.
      * apply Hall, elem_of_app. right. by left.
Qed.

Lemma tasksByOrder_unique (tasks : list Task) (t : Task) :
  NoDup (order <$> tasks) → t ∈ tasks → tasksByOrder tasks !! order t = Some t.
Proof.
  intros Hnd Hin.
  destruct (tasksByOrder tasks !! order t) as [p |] eqn:E.
  - destruct (tasksByOrder_lookup tasks _ p E) as [Hp Ho].
    f_equal. by apply (NoDup_order_inj tasks).
  - exfalso. by apply (proj1 (tasksByOrder_None tasks (order t)) E t).
Qed.

Lemma find_order_unique (tasks : list Task) (p : Task) :
  NoDup (order <$> tasks) → p ∈ tasks →
  find (fun t => bool_decide (order t = order p)) tasks = Some p.
Proof.
  induction tasks as [| a tasks IH]; intros Hnd Hin; [inversion Hin |]. simpl.
  case_bool_decide as Ha.
  - f_equal. apply (NoDup_order_inj (a :: tasks)); [done | by left | done | done].
  - apply elem_of_cons in Hin as [-> | Hin]; [done |].
    apply IH; [| done]. rewrite fmap_cons in Hnd. by apply NoDup_cons in Hnd as [_ ?].
Qed.

Lemma find_tasksByOrder (tasks : list Task) (c : string) :
  NoDup (order <$> tasks) →
  find (fun t => bool_decide (order t = c)) tasks = tasksByOrder tasks !! c.
Proof.
  intros Hnd. destruct (tasksByOrder tasks !! c) as [p |] eqn:E.
  - destruct (tasksByOrder_lookup tasks c p E) as [Hp <-].
    by apply find_order_unique.
  - destruct (find _ tasks) as [q |] eqn:F; [| done].
    apply find_some in F as [Hq Ho]. apply list_elem_of_In in Hq.
    apply bool_decide_eq_true in Ho.
    exfalso. by apply (proj1 (tasksByOrder_None tasks c) E q).
Qed.

(** X3. The index from order codes to tasks: a later task replaces an
    earlier one with the same code; a code that no task carries is not
    in it; and when codes are unique every task is found under its own
    code, by the index and by [Array.find] alike. *)
Theorem tasksByOrder_index (tasks : list Task) :
  (∀ t, tasksByOrder (tasks ++ [t]) !! order t = Some t)
  ∧ (∀ c, tasksByOrder tasks !! c = None ↔ ∀ t, t ∈ tasks → order t ≠ c)
  ∧ (NoDup (order <$> tasks) →
     (∀ t, t ∈ tasks → tasksByOrder tasks !! order t = Some t)
     ∧ (∀ c, find (fun t => bool_decide (order t = c)) tasks = tasksByOrder tasks !! c)).
Proof.
  split; [intros t; by rewrite tasksByOrder_snoc, lookup_insert_eq |].
  split; [apply tasksByOrder_None |].
  intros Hnd. split; [intros t; by apply tasksByOrder_unique |].
  intros c. by apply find_tasksByOrder.
Qed.

Lemma tasksByOrder_index_witness :
  tasksByOrder plan !! "B" = Some (planTask "b" "B" ["A"] 3)
  ∧ find (fun t => bool_decide (order t = "Q")) plan = tasksByOrder plan !! "Q".
Proof.
  destruct (tasksByOrder_index plan) as (_ & _ & Huniq).
  destruct (Huniq plan_order_NoDup) as [Hown Hfind].
  split; [| apply Hfind].
  apply (Hown (planTask "b" "B" ["A"] 3)). unfold plan. do 5 right. by left.
Defined.

Lemma tasksByOrder_Permutation (tasks tasks' : list Task) :
  NoDup (order <$> tasks) → tasks ≡ₚ tasks' → tasksByOrder tasks = tasksByOrder tasks'.
Proof.
  intros Hnd Hp. assert (NoDup (order <$> tasks')) as Hnd' by by rewrite <- Hp.
  apply map_eq. intros c.
  destruct (tasksByOrder tasks !! c) as [p |] eqn:E.
  - destruct (tasksByOrder_lookup tasks c p E) as [Hin <-]. symmetry.
    apply tasksByOrder_unique; [done | by rewrite <- Hp].
  - symmetry. apply tasksByOrder_None. intros t Hin.
    apply (proj1 (tasksByOrder_None tasks c) E). by rewrite Hp.
Qed.

(** ** Reference timeline *)

(** X4. When no two tasks share an order code, the resolver's whole
    result (the map, the counter and the number of passes) does not
    depend on the order in which the tasks arrive. *)
Theorem calculateReferenceTimeline_arrival_order (tasks tasks' : list Task) (created : Z) :
  NoDup (order <$> tasks) → tasks ≡ₚ tasks' →
  calculateReferenceTimeline_run tasks created = calculateReferenceTimeline_run tasks' created
  ∧ calculateReferenceTimeline tasks created = calculateReferenceTimeline tasks' created.
Proof.
  intros Hnd Hp.
  assert (calculateReferenceTimeline_run tasks created
          = calculateReferenceTimeline_run tasks' created) as E.
  { unfold calculateReferenceTimeline_run, calculateReferenceTimeline_fuel.
    rewrite <- (Permutation_length Hp).
    destruct tasks as [| a l] eqn:Et.
    { apply Permutation_nil in Hp. by subst. }
    destruct tasks' as [| a' l'] eqn:Et'.
    { by apply Permutation_sym, Permutation_nil in Hp. }
    rewrite <- Et, <- Et' in *. cbv zeta.
    by rewrite (tasksByOrder_Permutation tasks tasks' Hnd Hp),
      (sortTasks_Permutation_eq tasks tasks' Hnd Hp). }
  split; [done |]. unfold calculateReferenceTimeline. by rewrite E.
Qed.

Lemma calculateReferenceTimeline_arrival_order_witness :
  calculateReferenceTimeline plan jan1 = calculateReferenceTimeline (reverse plan) jan1.
Proof.
  apply (calculateReferenceTimeline_arrival_order plan (reverse plan) jan1 plan_order_NoDup).
  symmetry. apply reverse_Permutation.
Defined.

Lemma Inv_size (tasks : list Task) (created : Z) (tl : gmap string TimelineEntry) :
  Inv tasks created tl → (size tl ≤ length tasks)%nat.
Proof.
  intros HI. rewrite <- size_dom.
  etrans; [| etrans; [apply (size_list_to_set_le (_id <$> tasks)) | by rewrite length_fmap]].
  apply subseteq_size. intros id Hid. apply elem_of_dom in Hid as [e He].
  destruct (HI id e He) as (t & Hin & <- & _).
  apply elem_of_list_to_set, list_elem_of_fmap. by exists t.
Qed.

Lemma whileLoop_counts (tasks : list Task) (created : Z) (MAX : Z) (fuel : nat)
    (st st' : LoopState) :
  LoopInv tasks created st →
  whileLoop fuel MAX (sortTasks tasks) (tasksByOrder tasks) created st = Some st' →
  Inv tasks created (ls_timeline st')
  ∧ iterations st' <= Z.of_nat (length tasks)
  ∧ tasksToProcess st' = Z.of_nat (length tasks) - Z.of_nat (size (ls_timeline st'))
  ∧ 0 <= tasksToProcess st'.
Proof.
  revert st. induction fuel as [| fuel IH]; intros st (HI & Hcount & Hit); [done |].
  simpl. pose proof (Inv_size tasks created _ HI) as Hsz.
  destruct (runPass_spec tasks created (ls_timeline st)) as (Hsub & HI' & Hsize & Hk & Hzero).
  set (pass := runPass (sortTasks tasks) (tasksByOrder tasks) created (ls_timeline st)) in *.
  destruct (_ && _) eqn:Hguard; [| intros [= <-]; split; [done |]; lia].
  apply andb_true_iff in Hguard as [Hpos _]. apply Z.ltb_lt in Hpos.
  destruct (Z.eqb_spec pass.2 0) as [H0 | Hn0]; simpl.
  - destruct (Z.ltb_spec 0 (tasksToProcess st - pass.2)) as [Hleft | Hnone]; [| lia].
    intros [= <-]. simpl. destruct (Hzero H0) as [Heq _].
    split; [by apply HI' |]. rewrite Heq. lia.
  - apply IH. split; [by apply HI' |]. simpl. lia.
Qed.

(** X5. The resolver stops after at most [taskCount] passes, so the
    five extra passes of its failsafe are never used; the counter it
    ends with is the number of tasks less the number of entries; every
    key of the map is the identifier of a task; and when the counter
    ends at zero every task has an entry. *)
Theorem resolver_pass_count (tasks : list Task) (created : Z) :
  ∃ st, calculateReferenceTimeline_run tasks created = Some st
    ∧ 0 <= iterations st <= Z.of_nat (length tasks)
    ∧ tasksToProcess st = Z.of_nat (length tasks) - Z.of_nat (size (ls_timeline st))
    ∧ 0 <= tasksToProcess st
    ∧ (∀ id, is_Some (ls_timeline st !! id) → ∃ t, t ∈ tasks ∧ _id t = id)
    ∧ (tasksToProcess st = 0 → ∀ t, t ∈ tasks → is_Some (ls_timeline st !! _id t)).
Proof.
  destruct (calculateReferenceTimeline_run_Final tasks created)
    as (st & Hrun & (HI & _ & Hit) & _).
  exists st. split; [done |].
  assert (iterations st <= Z.of_nat (length tasks)
          ∧ tasksToProcess st = Z.of_nat (length tasks) - Z.of_nat (size (ls_timeline st))
          ∧ 0 <= tasksToProcess st) as (Hn & Hc & Hpos).
  { revert Hrun. unfold calculateReferenceTimeline_run, calculateReferenceTimeline_fuel.
    destruct tasks as [| a l] eqn:Et.
    { intros [= <-]. simpl. rewrite map_size_empty. lia. }
    rewrite <- Et. cbv zeta. rewrite length_sortTasks. intros Hrun.
    apply (whileLoop_counts tasks created) in Hrun; [tauto |].
    split; [| simpl; rewrite map_size_empty; lia].
    intros id e. simpl. by rewrite lookup_empty. }
  split; [lia |]. split; [done |]. split; [done |]. split.
  - intros id [e He]. destruct (HI id e He) as (t & Hin & Hid & _). by exists t.
  - intros H0. apply (Inv_all_present tasks created); [done | lia].
Qed.

Lemma resolver_pass_count_witness :
  ∃ st, calculateReferenceTimeline_run plan jan1 = Some st
    ∧ iterations st <= 7
    ∧ (tasksToProcess st = 0 → is_Some (ls_timeline st !! "c")).
Proof.
  destruct (resolver_pass_count plan jan1) as (st & Hrun & Hit & _ & _ & _ & Hall).
  exists st. split; [done |]. split; [simpl in Hit; lia |].
  intros H0. apply (Hall H0 (planTask "c" "C" ["D"] 1)).
  unfold plan. do 4 right. by left.
Defined.

Lemma Forall2_elem_of_l {A B : Type} (P : A → B → Prop) (l : list A) (k : list B) (x : A) :
  Forall2 P l k → x ∈ l → ∃ y, y ∈ k ∧ P x y.
Proof.
  induction 1 as [| a b l k Hab _ IH]; intros Hin; [inversion Hin |].
  apply elem_of_cons in Hin as [-> | Hin].
  - exists b. split; [by left | done].
  - destruct (IH Hin) as (y & Hy & Hp). exists y. split; [by right | done].
Qed.

(** X6. When identifiers are unique, no entry of the map starts before
    the season's creation date; every task that a resolved task names
    as a predecessor has an entry too, and that entry ends no later
    than the resolved task starts; and a task with a lead time of zero
    or more days ends no earlier than it starts. *)
Theorem timeline_respects_precedence (tasks : list Task) (created : Z) :
  NoDup (_id <$> tasks) →
  ∃ tl, calculateReferenceTimeline tasks created = Some tl
    ∧ ∀ t e, t ∈ tasks → tl !! _id t = Some e →
        created <= tl_start e
        ∧ (∀ p, edge tasks t p →
             ∃ pe, tl !! _id p = Some pe ∧ tl_end pe <= tl_start e)
        ∧ (0 <= leadTime t → tl_start e <= tl_end e).
Proof.
  intros Hnd.
  destruct (calculateReferenceTimeline_run_Final tasks created)
    as (st & Hrun & (HI & _ & _) & _).
  exists (ls_timeline st). split.
  { unfold calculateReferenceTimeline. by rewrite Hrun. }
  intros t e Hin He.
  destruct (HI (_id t) e He) as (t' & Hin' & Hid & (r & Hr & ->) & _).
  assert (t' = t) as -> by by apply (NoDup_id_inj tasks).
  destruct (scanPreceding_Some tasks (ls_timeline st) created (preds t) r Hr)
    as (es & Hall & ->).
  destruct (maxEndDate_lower created (tl_end <$> es)) as [Hlow Hends].
  simpl. split; [done |]. split.
  - intros p (c & Hc & Hp).
    destruct (Forall2_elem_of_l _ _ _ c Hall Hc) as (pe & Hpe & p' & Hp' & Hl).
    assert (p' = p) as -> by congruence.
    exists pe. split; [done |].
    rewrite Forall_forall in Hends. apply Hends, list_elem_of_fmap. by exists pe.
  - unfold Moment.add_days, Moment.MS_PER_DAY. lia.
Qed.

Lemma timeline_respects_precedence_witness :
  NoDup (_id <$> plan)
  ∧ ∃ tl, calculateReferenceTimeline plan jan1 = Some tl
      ∧ ∀ e, tl !! "g" = Some e → jan1 <= tl_start e.
Proof.
  split; [exact plan_NoDup |].
  destruct (timeline_respects_precedence plan jan1 plan_NoDup) as (tl & Hcalc & Hall).
  exists tl. split; [done |]. intros e He.
  apply (Hall (planTask "g" "G" ["A"; "B"] 2) e); [| done].
  unfold plan. by left.
Defined.

(** ** The edit reducer, continued *)

Lemma or_else_nonempty (o : option string) (d : string) :
  d ≠ "" → JsString.or_else o d ≠ "".
Proof.
  intros Hd. unfold JsString.or_else, JsString.truthy.
  destruct o as [s |]; [| done].
  destruct (String.eqb_spec s ""); done.
Qed.

Lemma afterReply_shape (newRow : Task) (reply : ApiReply) :
  ∃ mid, (afterReply newRow reply).1 = (mid ++ [SetIsUpdating false])%list
         ∧ callsPersistence mid = false
         ∧ match (afterReply newRow reply).2 with
           | Resolved row =>
               _id row = _id newRow ∧ replacesSnapshot mid = true
               ∧ reportsError mid = false
           | Rejected m =>
               mid = [SetAlertInfo (error m)] ∧ m ≠ ""
           end.
Proof.
  unfold afterReply.
  destruct reply as [[[[season |] [tasks |] m] |] | err]; simpl;
    try (eexists [_]; repeat split; done).
  - eexists [_; _; _]. repeat split.
    destruct (find _ (sortTasks tasks)) as [row |] eqn:F; [| done].
    apply find_some in F as [_ F]. by apply bool_decide_eq_true in F.
  - eexists [_]. repeat split. by do 2 apply or_else_nonempty.
Qed.

(** X7. Whatever the reply, a run that calls persistence calls it once,
    for the edited row and with a payload that has a key, after raising
    the busy flag, and lowers the flag last. *)
Theorem persistence_call_is_bracketed (utcOffset : Z) (seasonId : string)
    (api : string -> string -> ApiPayload -> ApiReply) (newRow oldRow : Task) :
  callsPersistence (handleProcessRowUpdate utcOffset seasonId api newRow oldRow).1 = true →
  ∃ payload mid,
    (handleProcessRowUpdate utcOffset seasonId api newRow oldRow).1
    = SetIsUpdating true :: UpdateTaskInSeason seasonId (_id newRow) payload
        :: (mid ++ [SetIsUpdating false])%list
    ∧ callsPersistence mid = false
    ∧ payloadKeys payload ≠ [].
Proof.
  unfold handleProcessRowUpdate.
  destruct (buildPayload utcOffset newRow oldRow) as [payload |]; [| done].
  case_bool_decide as Hkeys; [done |]. intros _.
  destruct (afterReply_shape newRow (api seasonId (_id newRow) payload))
    as (mid & Hmid & Hcall & _).
  exists payload, mid. simpl. rewrite Hmid. split; [done |]. split; [done |].
  intros E. by rewrite E in Hkeys.
Qed.

Lemma persistence_call_is_bracketed_witness :
  ∃ payload mid,
    (handleProcessRowUpdate 0 "s1" failingApi
       (plannedTask None (Some (noon 3)) "pending")
       (plannedTask None None "pending")).1
    = SetIsUpdating true :: UpdateTaskInSeason "s1" "7" payload
        :: (mid ++ [SetIsUpdating false])%list
    ∧ callsPersistence mid = false
    ∧ payloadKeys payload ≠ [].
Proof.
  apply (persistence_call_is_bracketed 0 "s1" failingApi
           (plannedTask None (Some (noon 3)) "pending")
           (plannedTask None None "pending")).
  reflexivity.
Defined.

(** X8. The payload is the difference of the two rows and nothing more:
    [remarks] is in it exactly when the remarks differ, [actualCompletion]
    exactly when the completion dates differ, and [status] exactly when a
    non-null completion date is being set on a row that is not completed,
    in which case it is [completed]; clearing the date sends no status. *)
Theorem payload_is_the_difference (utcOffset : Z) (newRow oldRow : Task)
    (payload : ApiPayload) :
  buildPayload utcOffset newRow oldRow = Some payload →
  p_remarks payload
  = (if bool_decide (remarks newRow ≠ remarks oldRow)
     then Some (remarks newRow) else None)
  ∧ p_actualCompletion payload
    = (if bool_decide (actualCompletion newRow ≠ actualCompletion oldRow)
       then Some (actualCompletion newRow) else None)
  ∧ p_status payload
    = (if bool_decide (actualCompletion newRow ≠ actualCompletion oldRow)
          && hasKey (actualCompletion newRow)
          && bool_decide (status newRow ≠ "completed")
       then Some "completed" else None).
Proof.
  unfold buildPayload.
  destruct (bool_decide (actualCompletion newRow ≠ actualCompletion oldRow)).
  - destruct (completionBeforeStart _ _ _); [done |].
    cbn [p_actualCompletion].
    destruct (actualCompletion newRow) as [d |];
      destruct (bool_decide (status newRow ≠ "completed"));
      destruct (bool_decide (remarks newRow ≠ remarks oldRow));
      intros [= <-]; done.
  - destruct (bool_decide (remarks newRow ≠ remarks oldRow)); intros [= <-]; done.
Qed.

Lemma payload_is_the_difference_witness :
  p_status
    {| p_remarks := None; p_actualCompletion := Some None; p_status := None |}
  = None.
Proof.
  destruct (payload_is_the_difference 0
              (plannedTask (Some (noon 10)) None "completed")
              (plannedTask (Some (noon 10)) (Some (noon 12)) "completed")
              {| p_remarks := None; p_actualCompletion := Some None; p_status := None |}
              eq_refl) as (_ & _ & Hst).
  exact Hst.
Defined.

(** X9. How a run settles.  A rejected run has raised an error alert
    with a message that is not empty and has replaced neither the season
    nor the task list.  A resolved run either did nothing and returns the
    old row, or replaced the snapshot, raised no error and returns a row
    with the identifier of the edited row. *)
Theorem settlement_and_snapshot (utcOffset : Z) (seasonId : string)
    (api : string -> string -> ApiPayload -> ApiReply) (newRow oldRow : Task) :
  match (handleProcessRowUpdate utcOffset seasonId api newRow oldRow).2 with
  | Rejected _ =>
      replacesSnapshot (handleProcessRowUpdate utcOffset seasonId api newRow oldRow).1
      = false
      ∧ ∃ m, m ≠ ""
          ∧ alertInfo
              (applyEffects
                 (handleProcessRowUpdate utcOffset seasonId api newRow oldRow).1
                 idleState)
            = error m
  | Resolved row =>
      ((handleProcessRowUpdate utcOffset seasonId api newRow oldRow).1 = []
       ∧ row = oldRow)
      ∨ (replacesSnapshot
           (handleProcessRowUpdate utcOffset seasonId api newRow oldRow).1 = true
         ∧ reportsError
             (handleProcessRowUpdate utcOffset seasonId api newRow oldRow).1 = false
         ∧ _id row = _id newRow)
  end.
Proof.
  unfold handleProcessRowUpdate.
  destruct (buildPayload utcOffset newRow oldRow) as [payload |]; simpl.
  2:{ split; [done |]. by exists msgInvalidDate. }
  case_bool_decide as Hkeys; simpl; [by left |].
  destruct (afterReply_shape newRow (api seasonId (_id newRow) payload))
    as (mid & Hmid & Hcall & Hcase).
  rewrite Hmid.
  destruct (afterReply newRow (api seasonId (_id newRow) payload)).2 as [row | m].
  - destruct Hcase as (Hid & Hsnap & Herr). right.
    unfold replacesSnapshot, reportsError in *. rewrite !existsb_app, ?Hsnap, ?Herr.
    done.
  - destruct Hcase as [-> Hm]. split; [done |]. by exists m.
Qed.

(** X10. After a rejected run the grid's error handler keeps the alert
    that the run raised. *)
Theorem error_handler_keeps_alert (utcOffset : Z) (seasonId : string)
    (api : string -> string -> ApiPayload -> ApiReply) (newRow oldRow : Task)
    (m : string) (st : PageState) :
  (handleProcessRowUpdate utcOffset seasonId api newRow oldRow).2 = Rejected m →
  handleProcessRowUpdateError
    (applyEffects (handleProcessRowUpdate utcOffset seasonId api newRow oldRow).1 st)
  = applyEffects (handleProcessRowUpdate utcOffset seasonId api newRow oldRow).1 st.
Proof.
  unfold handleProcessRowUpdate.
  destruct (buildPayload utcOffset newRow oldRow) as [payload |]; simpl.
  2:{ intros _. reflexivity. }
  case_bool_decide as Hkeys; simpl; [done |].
  destruct (afterReply_shape newRow (api seasonId (_id newRow) payload))
    as (mid & Hmid & Hcall & Hcase).
  rewrite Hmid.
  destruct (afterReply newRow (api seasonId (_id newRow) payload)).2 as [row | m'];
    [done |].
  destruct Hcase as [-> Hm]. intros _. simpl.
  unfold handleProcessRowUpdateError, setAlertInfo. simpl.
  destruct (String.eqb_spec m' ""); done.
Qed.

Lemma error_handler_keeps_alert_witness :
  alertInfo
    (handleProcessRowUpdateError
       (applyEffects
          (handleProcessRowUpdate 0 "s1" failingApi
             (plannedTask None (Some (noon 3)) "pending")
             (plannedTask None None "pending")).1
          idleState))
  = error "Network Error".
Proof.
  rewrite (error_handler_keeps_alert 0 "s1" failingApi
             (plannedTask None (Some (noon 3)) "pending")
             (plannedTask None None "pending") "Network Error" idleState eq_refl).
  reflexivity.
Defined.

(** X11. Saving remarks from the remarks editor always calls
    persistence, once, with a payload that holds the remarks and nothing
    else, also when the text was not changed; the busy flag is raised
    first and lowered last; the season is never replaced; and the task
    list is replaced exactly when no error is raised. *)
Theorem remark_update_always_calls (seasonId : string)
    (api : string -> string -> ApiPayload -> ApiReply) (row : Task) (newRemarks : string) :
  ∃ mid,
    handleRemarkUpdate seasonId api row newRemarks
    = SetIsUpdating true
      :: UpdateTaskInSeason seasonId (_id row)
           {| p_remarks := Some (Some newRemarks); p_actualCompletion := None;
              p_status := None |}
      :: (mid ++ [SetIsUpdating false])%list
    ∧ callsPersistence mid = false
    ∧ Forall (fun e => match e with SetSeasonDetails _ => False | _ => True end) mid
    ∧ replacesSnapshot mid = negb (reportsError mid).
Proof.
  unfold handleRemarkUpdate.
  destruct (api seasonId (_id row) _) as [[[season [tasks |] m] |] | err];
    eexists; (split; [reflexivity |]); repeat split; repeat constructor.
Qed.

(** ** The edit gates, continued *)

(** The guards of [handleEditClick] in the order in which they fire. *)
Lemma handleEditClick_guards (currentUser : option User) (taskList : option (list Task))
    (id : string) (task : Task) (st : PageState) :
  handleEditClick currentUser taskList id (Some task) st
  = (let lower := JsString.toLowerCase (status task) in
     let admin := isAdminOrPlanner (JsString.toLowerCase <$> (currentUser ≫= role)) in
     if bool_decide (lower = "completed") && negb admin
     then setAlertInfo (warning msgCompletedLocked) st
     else if bool_decide (lower = "blocked")
     then setAlertInfo (warning msgBlocked) st
     else if bool_decide (lower = "pending")
             && negb (match taskList with
                      | Some l => predecessorsDone (tasksByOrder l) (preds task)
                      | None => false
                      end)
     then setAlertInfo
            (match taskList with
             | Some _ => warning msgPredecessors
             | None => error msgNoTaskList
             end) st
     else if negb admin
             && negb (includesDepartment (responsible task) (currentUser ≫= department))
     then setAlertInfo (warning msgDepartment) st
     else editing id st).
Proof.
  unfold handleEditClick. cbv zeta.
  destruct (_ && _); [done |]. destruct (bool_decide (_ = "blocked")); [done |].
  destruct (bool_decide (_ = "pending")); simpl.
  - destruct taskList as [l |]; simpl; [| done].
    destruct (predecessorsDone _ _); simpl; [| done].
    destruct (_ && _); done.
  - destruct (_ && _); done.
Qed.

Lemma alert_is_not_editing (a : AlertInfo) (id : string) (st : PageState) :
  alert_open a = true → setAlertInfo a st ≠ editing id st.
Proof. intros Ha E. apply (f_equal (fun s => alert_open (alertInfo s))) in E. simpl in E. congruence. Qed.

(** X12. [handleEditClick] either puts exactly the clicked row into edit
    mode and closes the alert, or leaves the row modes as they were and
    opens an alert.  It does the first exactly when the task is not
    blocked, is not completed unless the user is Admin or Planner, has,
    if pending, a task list in which none of its codes looks up to a
    task that is not completed, and the user is Admin or Planner or has
    a department (a string) listed in [responsible]. *)
Theorem handleEditClick_decision (currentUser : option User)
    (taskList : option (list Task)) (id : string) (task : Task) (st : PageState) :
  (handleEditClick currentUser taskList id (Some task) st = editing id st
   ∨ ∃ a, alert_open a = true
          ∧ handleEditClick currentUser taskList id (Some task) st = setAlertInfo a st)
  ∧ (handleEditClick currentUser taskList id (Some task) st = editing id st ↔
     JsString.toLowerCase (status task) ≠ "blocked"
     ∧ (JsString.toLowerCase (status task) = "completed" →
        isAdminOrPlanner (JsString.toLowerCase <$> (currentUser ≫= role)) = true)
     ∧ (JsString.toLowerCase (status task) = "pending" →
        ∃ l, taskList = Some l
             ∧ predecessorsDone (tasksByOrder l) (preds task) = true)
     ∧ (isAdminOrPlanner (JsString.toLowerCase <$> (currentUser ≫= role)) = true
        ∨ includesDepartment (responsible task) (currentUser ≫= department) = true)).
Proof.
  rewrite handleEditClick_guards. cbv zeta.
  set (lower := JsString.toLowerCase (status task)).
  set (admin := isAdminOrPlanner _).
  set (dept := includesDepartment _ _).
  repeat case_bool_decide; try congruence;
    destruct admin, dept; simpl;
    try (destruct taskList as [l |]; simpl; [destruct (predecessorsDone _ _) eqn:Ep |];
         simpl).
  all: split;
    [ first [ by left | right; eexists; split; [| reflexivity]; reflexivity ] |].
  all: split;
    [ first [ intros E; by apply alert_is_not_editing in E
            | intros _; repeat split; try done; try (intros; congruence);
              first [ by left | by right | by eexists ] ]
    | first [ done
            | intros (G1 & G2 & G3 & G4);
              exfalso;
              first [ by apply G1
                    | by specialize (G2 ltac:(assumption))
                    | destruct (G3 ltac:(assumption)) as (l' & Hl' & Hd); congruence
                    | destruct G4; congruence ] ] ].
Qed.

Lemma handleEditClick_decision_witness :
  handleEditClick (Some adminUser) (Some exList) "2"
    (Some (exTask "2" "B" ["A"] "pending")) idleState
  = editing "2" idleState.
Proof.
  destruct (handleEditClick_decision (Some adminUser) (Some exList) "2"
              (exTask "2" "B" ["A"] "pending") idleState) as [_ Hiff].
  apply Hiff. split; [discriminate |]. split; [discriminate |].
  split; [| by left]. intros _. exists exList. split; reflexivity.
Defined.

(** X13. A user who is neither Admin nor Planner never gets a row into
    edit mode through the Edit action: the action is enabled for such a
    user only when the department is an object whose [name] is listed in
    [responsible], and [handleEditClick] looks for the department itself
    among the strings of [responsible], where an object is never found. *)
Theorem edit_action_needs_admin (authLoading : bool) (currentUser : option User)
    (seasonDetails : option Season) (taskList : option (list Task))
    (row : Task) (st : PageState) :
  isAdminOrPlanner (JsString.toLowerCase <$> (currentUser ≫= role)) = false →
  match editActionClick authLoading currentUser seasonDetails taskList row st with
  | Returns st' => rowModesModel st' = rowModesModel st
  | Throws _ => True
  end.
Proof.
  intros Hadmin. unfold editActionClick.
  destruct (isCellEditable authLoading currentUser seasonDetails row)
    as [[|] | e] eqn:E; [| done | done].
  assert (includesDepartment (responsible row) (currentUser ≫= department) = false)
    as Hdept.
  { unfold isCellEditable in E.
    destruct currentUser as [user |]; [| done].
    destruct seasonDetails as [season |]; [| done].
    destruct authLoading; [done |].
    destruct (negb _); [done |].
    simpl in Hadmin. destruct (role user) as [r |]; [| done].
    simpl in Hadmin. rewrite Hadmin in E.
    destruct (_ && _); [done |].
    simpl. by destruct (department user) as [[s | n] |]. }
  rewrite handleEditClick_guards. cbv zeta. rewrite Hadmin, Hdept.
  cbn [negb andb]. rewrite !andb_true_r.
  repeat (match goal with |- context [if ?b then _ else _] => destruct b end); done.
Qed.

Lemma edit_action_needs_admin_witness :
  match editActionClick false (Some salesUser) (Some openSeason) (Some exList)
          (exTask "3" "C" [] "pending") idleState with
  | Returns st' => rowModesModel st' = rowModesModel idleState
  | Throws _ => True
  end.
Proof.
  apply (edit_action_needs_admin false (Some salesUser) (Some openSeason)
           (Some exList) (exTask "3" "C" [] "pending") idleState).
  reflexivity.
Defined.

(** The same click by the same user: the action is enabled, and the
    click ends in the department warning. *)
Example responsible_user_is_turned_away :
  isCellEditable false (Some salesUser) (Some openSeason)
    (exTask "3" "C" [] "pending") = Returns true
  ∧ editActionClick false (Some salesUser) (Some openSeason) (Some exList)
      (exTask "3" "C" [] "pending") idleState
    = Returns (setAlertInfo (warning msgDepartment) idleState).
Proof. split; reflexivity. Qed.

(** X14. [isCellEditable] returns true exactly when authentication has
    finished, a user and an open season are loaded, the user has a role,
    a completed task is being looked at only by Admin or Planner, and
    either the user is Admin or Planner with no department or with a
    department object, or the department object's name is, ignoring
    case, among [responsible]. *)
Theorem isCellEditable_decision (authLoading : bool) (currentUser : option User)
    (seasonDetails : option Season) (row : Task) :
  isCellEditable authLoading currentUser seasonDetails row = Returns true ↔
  authLoading = false
  ∧ ∃ user season r,
      currentUser = Some user ∧ seasonDetails = Some season
      ∧ season_status season = "Open" ∧ role user = Some r
      ∧ (JsString.toLowerCase (status row) = "completed" →
         isAdminOrPlanner (Some (JsString.toLowerCase r)) = true)
      ∧ ((isAdminOrPlanner (Some (JsString.toLowerCase r)) = true
          ∧ ∀ s, department user ≠ Some (DeptString s))
         ∨ ∃ n, department user = Some (DeptObject n)
                ∧ JsString.toLowerCase n
                  ∈ map JsString.toLowerCase (responsible row)).
Proof.
  unfold isCellEditable. split.
  - destruct currentUser as [user |]; [| done].
    destruct seasonDetails as [season |]; [| done].
    destruct authLoading; [done |].
    case_bool_decide as Ho; simpl; [| done].
    destruct (role user) as [r |] eqn:Er; [| done].
    case_bool_decide as Hc; simpl.
    + destruct (isAdminOrPlanner _) eqn:Ea; simpl; [| done].
      destruct (department user) as [[s | n] |] eqn:Ed; [done | |]; intros _;
        (split; [done |]); exists user, season, r; repeat split; try done;
        left; split; try done; intros s; congruence.
    + destruct (department user) as [[s | n] |] eqn:Ed; [done | |].
      * intros [= H]. split; [done |]. exists user, season, r.
        repeat split; try done.
        apply orb_true_iff in H as [H | H].
        -- left. split; [done |]. intros s; congruence.
        -- right. exists n. split; [done |]. by apply bool_decide_eq_true in H.
      * intros [= H]. split; [done |]. exists user, season, r.
        repeat split; try done. left. split; [done |]. intros s; congruence.
  - intros (-> & user & season & r & -> & -> & Ho & Er & Hc & Hd).
    rewrite (bool_decide_eq_true_2 _ Ho), Er. simpl.
    destruct (bool_decide (JsString.toLowerCase (status row) = "completed")) eqn:Ec;
      simpl.
    + apply bool_decide_eq_true in Ec. rewrite (Hc Ec). simpl.
      destruct Hd as [[_ Hns] | (n & Hn & Hin)].
      * destruct (department user) as [[s | n] |]; [by destruct (Hns s) | done | done].
      * rewrite Hn. done.
    + destruct Hd as [[Ha Hns] | (n & Hn & Hin)].
      * rewrite Ha. destruct (department user) as [[s | n] |];
          [by destruct (Hns s) | done | done].
      * rewrite Hn. by rewrite (bool_decide_eq_true_2 _ Hin), orb_true_r.
Qed.

Lemma isCellEditable_decision_witness :
  isCellEditable false (Some salesUser) (Some openSeason)
    (exTask "3" "C" [] "pending") = Returns true.
Proof.
  apply isCellEditable_decision. split; [reflexivity |].
  exists salesUser, openSeason, "User".
  split; [reflexivity |]. split; [reflexivity |]. split; [reflexivity |].
  split; [reflexivity |]. split; [discriminate |].
  right. exists "Sales". split; [reflexivity |]. vm_compute. by left.
Defined.

Lemma predecessorsDone_true (tasksMap : gmap string Task) (codes : list string) :
  predecessorsDone tasksMap codes = true ↔
  ∀ c p, c ∈ codes → tasksMap !! c = Some p → status p = "completed".
Proof.
  split.
  - intros Ht c p Hin Hl. destruct (decide (status p = "completed")) as [| Hn]; [done |].
    assert (predecessorsDone tasksMap codes = false) as Hf
      by (apply predecessorsDone_false; by exists c, p).
    congruence.
  - intros Hall. apply not_false_iff_true. intros Hf.
    apply predecessorsDone_false in Hf as (c & p & Hin & Hl & Hs).
    by apply Hs, (Hall c p).
Qed.

(** X15. With unique order codes the two gates on predecessors agree as
    far as the codes resolve: when [handleEditClick] turns a pending task
    away because of its predecessors, [isTaskActionable] is false for
    it; and when every code of the task is carried by a task of the
    list, [handleEditClick] turns away every pending task for which
    [isTaskActionable] is false. *)
Theorem predecessor_gates_agree (currentUser : option User) (taskList : list Task)
    (id : string) (task : Task) (st : PageState) :
  NoDup (order <$> taskList) →
  status task = "pending" →
  (handleEditClick currentUser (Some taskList) id (Some task) st
   = setAlertInfo (warning msgPredecessors) st →
   isTaskActionable (Some task) (Some taskList) = false)
  ∧ ((∀ c, c ∈ preds task → is_Some (tasksByOrder taskList !! c)) →
     isTaskActionable (Some task) (Some taskList) = false →
     handleEditClick currentUser (Some taskList) id (Some task) st
     = setAlertInfo (warning msgPredecessors) st).
Proof.
  intros Hnd Hst.
  assert (status task ≠ "completed") as Hc by (rewrite Hst; discriminate).
  assert (status task ≠ "blocked") as Hb by (rewrite Hst; discriminate).
  rewrite (pending_edit_denied_iff currentUser taskList id task st Hst). split.
  - intros (c & p & Hin & Hl & Hs). apply not_true_is_false. intros Ht.
    destruct (proj1 (isTaskActionable_open task taskList Hc Hb) Ht c Hin)
      as (p' & Hf & Hs').
    rewrite (find_tasksByOrder taskList c Hnd) in Hf. congruence.
  - intros Hres Hf.
    destruct (predecessorsDone (tasksByOrder taskList) (preds task)) eqn:Ep;
      [| by apply predecessorsDone_false].
    exfalso. apply not_true_iff_false in Hf. apply Hf.
    apply (isTaskActionable_open task taskList Hc Hb). intros c Hin.
    destruct (Hres c Hin) as [p Hp]. exists p.
    split; [by rewrite (find_tasksByOrder taskList c Hnd) |].
    by apply (proj1 (predecessorsDone_true _ _) Ep c p).
Qed.

Lemma exList_order_NoDup : NoDup (order <$> exList).
Proof. apply (bool_decide_unpack _). vm_compute. exact I. Defined.

Lemma predecessor_gates_agree_witness :
  handleEditClick (Some adminUser) (Some exList) "4"
    (Some (exTask "4" "D" ["C"] "pending")) idleState
  = setAlertInfo (warning msgPredecessors) idleState.
Proof.
  destruct (predecessor_gates_agree (Some adminUser) exList "4"
              (exTask "4" "D" ["C"] "pending") idleState exList_order_NoDup eq_refl)
    as [_ Hdeny].
  apply Hdeny; [| reflexivity].
  intros c Hin. apply list_elem_of_singleton in Hin. subst c. by eexists.
Defined.

(** X16. A double click on a cell is stopped exactly when the cell is
    [actualCompletion] or [remarks], the task is completed and the user
    is neither Admin nor Planner; the page state it leaves is then the
    one [handleEditClick] leaves for the same task and user.  A double
    click on a blocked or a pending task is never stopped here. *)
Theorem double_click_guard (currentUser : option User) (taskList : option (list Task))
    (field id : string) (task : Task) (st : PageState) :
  ((handleCellDoubleClick currentUser field (Some task) st).2 = true ↔
   field ∈ targetFields
   ∧ JsString.toLowerCase (status task) = "completed"
   ∧ isAdminOrPlanner (JsString.toLowerCase <$> (currentUser ≫= role)) = false)
  ∧ ((handleCellDoubleClick currentUser field (Some task) st).2 = true →
     (handleCellDoubleClick currentUser field (Some task) st).1
     = handleEditClick currentUser taskList id (Some task) st)
  ∧ ((handleCellDoubleClick currentUser field (Some task) st).2 = false →
     (handleCellDoubleClick currentUser field (Some task) st).1 = st).
Proof.
  rewrite handleEditClick_guards. unfold handleCellDoubleClick. cbv zeta.
  change (JsString.toLowerCase <$> (status <$> Some task))
    with (Some (JsString.toLowerCase (status task))).
  destruct (decide (field ∈ targetFields)) as [Hf | Hf];
    [rewrite (bool_decide_eq_true_2 _ Hf) | rewrite (bool_decide_eq_false_2 _ Hf)];
    cbn [negb].
  2:{ split; [| done]. split; [done | by intros (? & _)]. }
  destruct (decide (JsString.toLowerCase (status task) = "completed")) as [Hc | Hc].
  - rewrite (bool_decide_eq_true_2 (Some _ = Some "completed")) by by rewrite Hc.
    rewrite (bool_decide_eq_true_2 _ Hc).
    destruct (isAdminOrPlanner _) eqn:Ea; cbn [negb andb fst snd].
    + split; [| done]. split; [done | by intros (_ & _ & ?)].
    + done.
  - rewrite (bool_decide_eq_false_2 (Some _ = Some "completed")) by congruence.
    cbn [negb andb fst snd]. split; [| done]. split; [done | by intros (_ & ? & _)].
Qed.

Lemma double_click_guard_witness :
  (handleCellDoubleClick (Some salesUser) "remarks"
     (Some (exTask "1" "A" [] "completed")) idleState).1
  = handleEditClick (Some salesUser) (Some exList) "1"
      (Some (exTask "1" "A" [] "completed")) idleState.
Proof.
  destruct (double_click_guard (Some salesUser) (Some exList) "remarks" "1"
              (exTask "1" "A" [] "completed") idleState) as (_ & Hsame & _).
  apply Hsame. reflexivity.
Defined.

(** ** Row styling *)

(** X17. For the three statuses of the data model the row class and the
    status chip tell the same story: completed rows are [row-completed]
    with a filled [success] chip, blocked rows [row-blocked] with an
    outlined [error] chip, and pending rows are [row-actionable] with a
    filled [warning] chip when [isTaskActionable] holds and [row-pending]
    with an outlined [default] chip when it does not. *)
Theorem row_class_matches_chip (task : Task) (taskList : list Task) :
  (status task = "completed" →
   getRowClassName (Some task) taskList = "row-completed"
   ∧ statusChipColor task taskList = "success"
   ∧ statusChipVariant task taskList = "filled")
  ∧ (status task = "blocked" →
     getRowClassName (Some task) taskList = "row-blocked"
     ∧ statusChipColor task taskList = "error"
     ∧ statusChipVariant task taskList = "outlined")
  ∧ (status task = "pending" →
     if isTaskActionable (Some task) (Some taskList)
     then getRowClassName (Some task) taskList = "row-actionable"
          ∧ statusChipColor task taskList = "warning"
          ∧ statusChipVariant task taskList = "filled"
     else getRowClassName (Some task) taskList = "row-pending"
          ∧ statusChipColor task taskList = "default"
          ∧ statusChipVariant task taskList = "outlined").
Proof.
  unfold getRowClassName, statusChipColor, statusChipVariant.
  split; [| split]; intros Hst.
  - rewrite (isTaskActionable_closed task (Some taskList)) by by left.
    by rewrite Hst.
  - rewrite (isTaskActionable_closed task (Some taskList)) by by right.
    by rewrite Hst.
  - destruct (isTaskActionable (Some task) (Some taskList)); by rewrite Hst.
Qed.

Lemma row_class_matches_chip_witness :
  getRowClassName (Some (exTask "6" "F" [] "blocked")) exList = "row-blocked"
  ∧ statusChipColor (exTask "6" "F" [] "blocked") exList = "error"
  ∧ statusChipVariant (exTask "6" "F" [] "blocked") exList = "outlined".
Proof.
  destruct (row_class_matches_chip (exTask "6" "F" [] "blocked") exList)
    as (_ & Hblocked & _).
  by apply Hblocked.
Defined.

(** ** The "Date Spend" cell *)

Lemma startOf_day_dayOf (utcOffset t : Z) :
  Moment.startOf_day utcOffset t
  = Moment.dayOf utcOffset t * Moment.MS_PER_DAY - utcOffset.
Proof.
  unfold Moment.startOf_day, Moment.dayOf, Moment.MS_PER_DAY.
  pose proof (Z.div_mod (t + utcOffset) 86400000 ltac:(lia)). lia.
Qed.

Lemma diff_days_startOf_day (utcOffset a b : Z) :
  diff_days (Moment.startOf_day utcOffset a) (Moment.startOf_day utcOffset b)
  = Moment.dayOf utcOffset a - Moment.dayOf utcOffset b.
Proof.
  unfold diff_days. rewrite !startOf_day_dayOf.
  replace (Moment.dayOf utcOffset a * Moment.MS_PER_DAY - utcOffset
           - (Moment.dayOf utcOffset b * Moment.MS_PER_DAY - utcOffset))
    with ((Moment.dayOf utcOffset a - Moment.dayOf utcOffset b) * Moment.MS_PER_DAY)
    by lia.
  apply Z.quot_mul. unfold Moment.MS_PER_DAY. lia.
Qed.

(** X18. The "Date Spend" cell is empty exactly when the completion
    date or the planned end is missing.  Otherwise it counts calendar
    days, whatever the times of day: with [d] the day of completion less
    the day of the planned end, the text is [d] followed by "d", with a
    "+" in front when [d] is positive, and the colour is [error.main]
    for a late, [success.main] for an early and [text.secondary] for an
    on-time completion. *)
Theorem date_spend_counts_days (utcOffset : Z) (row : Task) :
  (dateSpend utcOffset (Some row) = NoSpend ↔
   actualCompletion row = None ∨ computedDates row ≫= cd_end = None)
  ∧ ∀ completion planned,
      actualCompletion row = Some completion →
      computedDates row ≫= cd_end = Some planned →
      dateSpend utcOffset (Some row)
      = (let d := Moment.dayOf utcOffset completion - Moment.dayOf utcOffset planned in
         Spend
           (if 0 <? d then "+" ++ showZ d ++ "d" else showZ d ++ "d")
           (if 0 <? d then "error.main"
            else if d <? 0 then "success.main" else "text.secondary")).
Proof.
  unfold dateSpend. split.
  - destruct (actualCompletion row) as [a |]; [| split; [by left | done]].
    destruct (computedDates row ≫= cd_end) as [e |]; [| split; [by right | done]].
    split; [done | by intros [? | ?]].
  - intros completion planned -> ->. cbv zeta.
    by rewrite diff_days_startOf_day.
Qed.

Lemma date_spend_counts_days_witness :
  dateSpend 0
    (Some {| _id := "7"; order := "G"; name := ""; responsible := [];
             precedingTasks := None; leadTime := 2; status := "completed";
             computedDates := Some {| cd_start := None; cd_end := Some (noon 10) |};
             actualCompletion := Some (noon 12 - 40000000); remarks := None |})
  = Spend "+2d" "error.main".
Proof.
  destruct (date_spend_counts_days 0
    {| _id := "7"; order := "G"; name := ""; responsible := [];
       precedingTasks := None; leadTime := 2; status := "completed";
       computedDates := Some {| cd_start := None; cd_end := Some (noon 10) |};
       actualCompletion := Some (noon 12 - 40000000); remarks := None |})
    as [_ Hdays].
  rewrite (Hdays (noon 12 - 40000000) (noon 10) eq_refl eq_refl). reflexivity.
Defined.

(** ** Season status *)

(** X19. With a loaded season, [handleStatusUpdate] does nothing when
    there is no season identifier, no status is selected, or the selected
    status is the season's current one.  In every other case it calls
    persistence once, for the selected status, after raising the busy
    flag, and lowers the flag last; on success it stores the returned
    season, and on failure it sets an error that is not empty, leaves the
    season as it was and sets the selection back to the current
    status. *)
Theorem status_update_guarded (seasonId : option string) (selectedStatus : string)
    (season : Season) (api : string -> string -> SeasonReply) :
  (JsString.truthy seasonId = None ∨ selectedStatus = ""
   ∨ selectedStatus = season_status season →
   handleStatusUpdate seasonId selectedStatus (Some season) api = Returns [])
  ∧ (∀ sid, JsString.truthy seasonId = Some sid →
       selectedStatus ≠ "" → selectedStatus ≠ season_status season →
       ∃ mid,
         handleStatusUpdate seasonId selectedStatus (Some season) api
         = Returns
             (Page.SetIsUpdating true :: Page.UpdateSeasonStatus sid selectedStatus
                :: (mid ++ [Page.SetIsUpdating false])%list)
         ∧ match api sid selectedStatus with
           | SeasonUpdated updated =>
               mid = [Page.SetSeasonDetails updated;
                      Page.SetAlertInfo (success msgStatusUpdated)]
           | SeasonFailed err =>
               ∃ m, m ≠ ""
                 ∧ mid = [Page.SetError m; Page.SetAlertInfo (error m);
                          Page.SetSelectedStatus (season_status season)]
           end).
Proof.
  unfold handleStatusUpdate. split.
  - destruct (JsString.truthy seasonId) as [sid |]; [| done].
    destruct (String.eqb_spec selectedStatus "") as [| Hne]; [done |].
    case_bool_decide as Hsame; [done |].
    intros [? | [? | ?]]; done.
  - intros sid -> Hne Hdiff.
    destruct (String.eqb_spec selectedStatus "") as [| _]; [done |].
    rewrite (bool_decide_eq_false_2 _ Hdiff).
    eexists. split; [reflexivity |].
    destruct (api sid selectedStatus) as [updated | err]; [done |].
    eexists. split; [| reflexivity]. by apply or_else_nonempty.
Qed.

Lemma status_update_guarded_witness :
  handleStatusUpdate (Some "s1") "Open" (Some openSeason)
    (fun _ _ => SeasonFailed {| e_response_message := None; e_message := None |})
  = Returns []
  ∧ ∃ m,
      m ≠ ""
      ∧ handleStatusUpdate (Some "s1") "Closed" (Some openSeason)
          (fun _ _ => SeasonFailed {| e_response_message := None; e_message := None |})
        = Returns
            [Page.SetIsUpdating true; Page.UpdateSeasonStatus "s1" "Closed";
             Page.SetError m; Page.SetAlertInfo (error m);
             Page.SetSelectedStatus "Open"; Page.SetIsUpdating false].
Proof.
  split.
  - destruct (status_update_guarded (Some "s1") "Open" openSeason
                (fun _ _ => SeasonFailed {| e_response_message := None; e_message := None |}))
      as [Hnoop _].
    apply Hnoop. right. right. reflexivity.
  - destruct (status_update_guarded (Some "s1") "Closed" openSeason
                (fun _ _ => SeasonFailed {| e_response_message := None; e_message := None |}))
      as [_ Hcall].
    destruct (Hcall "s1" eq_refl) as (mid & Hrun & m & Hm & Hmid);
      [discriminate | discriminate |].
    exists m. split; [exact Hm |]. rewrite Hrun, Hmid. reflexivity.
Defined.

(** ** Export *)

Lemma dotPlus_app (s t : string) :
  noLineTerminator s = true → dotPlus (s ++ t) = s ++ dotPlus t.
Proof.
  induction s as [| c s IH]; simpl; [done |].
  intros H. apply andb_true_iff in H as [Hc Hs].
  apply negb_true_iff in Hc. rewrite Hc. by rewrite IH.
Qed.

Lemma dotPlus_all (s : string) : noLineTerminator s = true → dotPlus s = s.
Proof.
  induction s as [| c s IH]; simpl; [done |].
  intros H. apply andb_true_iff in H as [Hc Hs].
  apply negb_true_iff in Hc. rewrite Hc. by rewrite IH.
Qed.

Lemma length_string_append (a b : string) :
  String.length (a ++ b) = (String.length a + String.length b)%nat.
Proof. induction a as [| c a IH]; simpl; [done |]. by rewrite IH. Qed.

Lemma stripPrefix_Some (p s r : string) : stripPrefix p s = Some r → s = p ++ r.
Proof.
  revert s. induction p as [| a p IH]; intros s; simpl; [by intros [= <-] |].
  destruct s as [| b s]; [done |].
  destruct (Ascii.eqb_spec a b) as [<- | ?]; [| done].
  intros H. by rewrite (IH s H).
Qed.

Lemma matchFilename_Some (s cap : string) :
  matchFilename s = Some cap → ∃ a b, s = a ++ "filename=" ++ b.
Proof.
  induction s as [| c s IH].
  - simpl. done.
  - cbn [matchFilename].
    destruct (stripPrefix "filename=" (String c s)) as [r |] eqn:E.
    + intros _. exists "", r. simpl. by apply stripPrefix_Some in E.
    + intros H. destruct (IH H) as (a & b & ->). by exists (String c a), b.
Qed.

Lemma attachment_filename (seasonId r cap : string) :
  afterFilenameEq r = Some cap →
  exportFileName seasonId (Some ("attachment; filename=" ++ r)) = Returns cap.
Proof.
  intros H. unfold exportFileName. cbv -[afterFilenameEq]. by rewrite H.
Qed.

(** X20. The name of the downloaded file.  Without a
    [content-disposition] header it is [season_<id>_export.xlsx].  From
    a header [attachment; filename=<name>] it is [<name>], and from the
    quoted form [attachment; filename="<name>"] it is [<name>] followed
    by the closing quote, which the pattern leaves in the name. *)
Theorem export_file_name (seasonId name : string) :
  exportFileName seasonId None = Returns ("season_" ++ seasonId ++ "_export.xlsx")
  ∧ (noLineTerminator name = true →
     exportFileName seasonId
       (Some ("attachment; filename=" ++ String dquote (name ++ String dquote "")))
     = Returns (name ++ String dquote ""))
  ∧ (noLineTerminator name = true →
     (∃ c rest, name = String c rest ∧ c ≠ dquote) →
     exportFileName seasonId (Some ("attachment; filename=" ++ name))
     = Returns name).
Proof.
  split; [done |]. split.
  - intros Hlt. apply attachment_filename. unfold afterFilenameEq.
    rewrite Ascii.eqb_refl, dotPlus_app by done.
    change (dotPlus (String dquote "")) with (String dquote "").
    by destruct name.
  - intros Hlt (c & rest & -> & Hc). apply attachment_filename.
    unfold afterFilenameEq.
    destruct (Ascii.eqb_spec c dquote) as [| _]; [done |].
    by rewrite (dotPlus_all (String c rest)).
Qed.

Lemma export_file_name_witness :
  exportFileName "s1" (Some ("attachment; filename=" ++ String dquote ("plan.xlsx" ++ String dquote "")))
  = Returns ("plan.xlsx" ++ String dquote "")
  ∧ exportFileName "s1" (Some "attachment; filename=plan.xlsx") = Returns "plan.xlsx".
Proof.
  destruct (export_file_name "s1" "plan.xlsx") as (_ & Hquoted & Hplain).
  split; [by apply Hquoted |].
  apply Hplain; [reflexivity |]. exists "p"%char, "lan.xlsx". split; [reflexivity |].
  discriminate.
Defined.

(** X21. An export whose reply carries a [content-disposition] header
    without [filename=] in it is reported as failed, although the data
    arrived: no download happens, the error alert is raised, and the
    exporting flag is lowered. *)
Theorem export_without_file_name_fails (seasonId header : string)
    (api : string -> ExportReply) :
  header ≠ "" →
  (∀ a b, header ≠ a ++ "filename=" ++ b) →
  api seasonId = Exported (Some header) →
  handleExport seasonId api
  = [Page.SetIsExporting true; Page.ExportSeasonToExcel seasonId;
     Page.SetAlertInfo (error msgExportFailed); Page.SetIsExporting false].
Proof.
  intros Hne Hno Hapi. unfold handleExport, exportFileName. rewrite Hapi.
  unfold JsString.truthy. destruct (String.eqb_spec header ""); [done |].
  destruct (matchFilename header) as [cap |] eqn:E; [| done].
  destruct (matchFilename_Some header cap E) as (a & b & Hab). by destruct (Hno a b).
Qed.

Lemma export_without_file_name_fails_witness :
  handleExport "s1" (fun _ => Exported (Some "inline"))
  = [Page.SetIsExporting true; Page.ExportSeasonToExcel "s1";
     Page.SetAlertInfo (error msgExportFailed); Page.SetIsExporting false].
Proof.
  apply (export_without_file_name_fails "s1" "inline" (fun _ => Exported (Some "inline")));
    [discriminate | | reflexivity].
  intros a b H.
  assert (String.length "inline" = String.length (a ++ "filename=" ++ b)) as Hlen
    by by rewrite <- H.
  rewrite !length_string_append in Hlen. simpl in Hlen. lia.
Defined.
